(** * MT910 reconciliation: a shallow embedding of [reconcile]

    Source: [mt910_reconciliation_script.py].  The development follows the
    script: the two data frames live in a store, [reconcile] runs in a small
    state-and-exception monad, amounts and similarity scores are IEEE-754
    binary64 values (Python [float], pandas [float64]) and dates are day
    ordinals, so that [(a - b).days] is a subtraction in [Z]. *)

From Stdlib Require Import ZArith List String Ascii Bool Lia.
From Stdlib Require Import Floats.SpecFloat.
From Stdlib Require Import Reals Lra.
Import ListNotations.

Local Open Scope Z_scope.

(** ** Binary64 arithmetic *)

Module Binary64.

Definition prec : Z := 53.
Definition emax : Z := 1024.

Definition float := spec_float.

Definition zero : float := S754_zero false.
Definition nan : float := S754_nan.

(** Python [x - y], [abs x], [x <= y], [x > y] on floats. *)
Definition sub (x y : float) : float := SFsub prec emax x y.
Definition fabs (x : float) : float := SFabs x.
Definition le (x y : float) : bool := SFleb x y.
Definition gt (x y : float) : bool := SFltb y x.

Definition isnan (x : float) : bool :=
  match x with S754_nan => true | _ => false end.

(** [float(z)] for an integer and the correctly rounded quotient of two
    integers, which is what [float("50.10")] yields for 5010/100. *)
Definition of_Z (z : Z) : float := binary_normalize prec emax z 0 false.
Definition div (x y : float) : float := SFdiv prec emax x y.
Definition of_decimal (n : Z) (d : positive) : float :=
  div (of_Z n) (of_Z (Zpos d)).

(** The literal [0.1]: 0x1.999999999999ap-4. *)
Definition tenth : float := S754_finite false 7205759403792794 (-56).

End Binary64.

Import Binary64.

(** ** Data model *)

(** A row of [mt_df], as built by [parse_mt910_messages]. *)
Record MtRow : Type := mkMtRow {
  reference : string;
  account : string;
  date : option Z;
  currency : option string;
  amount : option float;
  narration : string
}.

(** A row of [app_df]; only the three columns [reconcile] reads. *)
Record AppRow : Type := mkAppRow {
  app_date : option Z;
  app_amount : option float;
  app_narration : string
}.

(** The five accumulators of [reconcile] (lines 61-65), which become the five
    result columns of [mt_df] (lines 98-102). *)
Record Columns : Type := mkColumns {
  matched_index : list (option Z);
  sim_scores : list float;
  matched_amount : list (option float);
  matched_date : list (option Z);
  matched_narration : list (option string)
}.

(** One line of the result columns. *)
Record MatchResult : Type := mkMatchResult {
  r_matched_index : option Z;
  r_similarity_score : float;
  r_matched_amount : option float;
  r_matched_date : option Z;
  r_matched_narration : option string
}.

(** [mt_df]: its rows and, once [reconcile] has run on it, the result
    columns. *)
Record MtFrame : Type := mkMtFrame {
  mt_rows : list MtRow;
  mt_columns : option Columns
}.

(** The two objects [reconcile] is handed; it reads and writes them in
    place. *)
Record Store : Type := mkStore {
  mt_df : MtFrame;
  app_df : list AppRow
}.

Inductive exn : Type :=
| ValueError (msg : string)
| IndexError.

(** ** State and exception monad *)

Definition M (A : Type) : Type := Store -> (exn + A) * Store.

Definition ret {A} (a : A) : M A := fun st => (inr a, st).

Definition bind {A B} (m : M A) (k : A -> M B) : M B :=
  fun st =>
    match m st with
    | (inl e, st') => (inl e, st')
    | (inr a, st') => k a st'
    end.

Definition get : M Store := fun st => (inr st, st).
Definition put (st : Store) : M unit := fun _ => (inr tt, st).

Definition lift {A} (r : exn + A) : M A := fun st => (r, st).

Notation "x <- m ;; k" := (bind m (fun x => k))
  (at level 61, m at next level, right associativity).
Notation "m ;;; k" := (bind m (fun _ => k))
  (at level 61, right associativity).

(** ** [str.lower]

    Read on ASCII text: the letters A-Z go to a-z and every other character
    is kept, the bytes of a letter outside ASCII among them. *)

Definition lower_ascii (c : ascii) : ascii :=
  let n := nat_of_ascii c in
  if (65 <=? n)%nat && (n <=? 90)%nat then ascii_of_nat (n + 32) else c.

Fixpoint lower (s : string) : string :=
  match s with
  | EmptyString => EmptyString
  | String c rest => String (lower_ascii c) (lower rest)
  end.

(** ** The scikit-learn calls

    [TfidfVectorizer()] is built with its defaults: no stop-word list,
    [token_pattern = (?u)\b\w\w+\b], so a token is a maximal run of at least
    two word characters.  [fit] raises [ValueError] on an empty vocabulary;
    the input validation of [transform] and of [cosine_similarity] raises
    [ValueError] on a collection of zero samples.  Word characters are the
    ASCII letters, digits and the underscore.  The vocabulary is kept in the
    order [nodup] leaves it in rather than sorted: the order of the columns
    changes no count, weight or similarity. *)

Module Sklearn.

Definition is_word_char (c : ascii) : bool :=
  let n := nat_of_ascii c in
  ((48 <=? n) && (n <=? 57) || (65 <=? n) && (n <=? 90)
   || (97 <=? n) && (n <=? 122) || (n =? 95))%nat.

Definition flush (cur : string) : list string :=
  if (2 <=? String.length cur)%nat then [cur] else [].

Fixpoint tokenize_from (cur : string) (s : string) : list string :=
  match s with
  | EmptyString => flush cur
  | String c rest =>
      if is_word_char c
      then tokenize_from (cur ++ String c EmptyString) rest
      else flush cur ++ tokenize_from EmptyString rest
  end.

(** The analyzer: lower-case, then extract the tokens. *)
Definition tokenize (doc : string) : list string :=
  tokenize_from EmptyString (lower doc).

(** The fitted vectorizer: the vocabulary (one column per term), the
    number of fitted documents and the document frequency of each term. *)
Record Vectorizer : Type := mkVectorizer {
  vocabulary_ : list string;
  n_docs : nat;
  doc_freq : list nat
}.

Definition contains (t : string) (toks : list string) : bool :=
  if in_dec string_dec t toks then true else false.

Definition document_frequency (docs : list (list string)) (t : string) : nat :=
  List.length (filter (contains t) docs).

Definition fit (raw_documents : list string) : exn + Vectorizer :=
  let docs := map tokenize raw_documents in
  let vocab := nodup string_dec (List.concat docs) in
  match vocab with
  | [] => inl (ValueError "empty vocabulary; perhaps the documents only contain stop words")
  | _ => inr (mkVectorizer vocab (List.length raw_documents)
                (map (document_frequency docs) vocab))
  end.

(** A row of term counts over the vocabulary. *)
Definition count_row (vocab : list string) (doc : string) : list nat :=
  map (count_occ string_dec (tokenize doc)) vocab.

(** The document-term matrix, weighted when [cosine_similarity] reads it:
    each row keeps the fitted statistics it is weighted with. *)
Record Matrix : Type := mkMatrix {
  fitted : Vectorizer;
  counts : list (list nat)
}.

Definition transform (v : Vectorizer) (raw_documents : list string)
  : exn + Matrix :=
  match raw_documents with
  | [] => inl (ValueError "Found array with 0 sample(s)")
  | _ => inr (mkMatrix v (map (count_row (vocabulary_ v)) raw_documents))
  end.

End Sklearn.

Import Sklearn.

(** ** The Candidate Filter as the specification words it (section 4.2) *)

Definition is_eligible (row : MtRow) (app_row : AppRow) : bool :=
match date row, app_date app_row, amount row, app_amount app_row with
| Some d, Some d', Some a, Some a' =>
    le (fabs (sub a a')) tenth && (Z.abs (d - d') <=? 1)
| _, _, _, _ => false
end.

(** ** [reconcile] *)

Section Reconcile.

(** The binary64 number that tf-idf weighting followed by
    [cosine_similarity] computes for one cell: it is a function of the
    fitted statistics and of the two count rows.  Its rounding behaviour
    (logarithm, square root) is the library's and is left open here. *)
Variable tfidf_cosine : Vectorizer -> list nat -> list nat -> float.

Definition cosine_similarity (X Y : Matrix) : exn + list (list float) :=
  match counts X, counts Y with
  | [], _ | _, [] => inl (ValueError "Found array with 0 sample(s)")
  | _, _ =>
      inr (map (fun x => map (fun y => tfidf_cosine (fitted X) x y) (counts Y))
             (counts X))
  end.

(** The matrix [cosine_similarity] returns for the two narration columns
    transformed by [v]. *)
Definition scores (v : Vectorizer) (mt_narr app_narr : list string)
  : list (list float) :=
  map (fun x => map (fun y => tfidf_cosine v x y)
                 (map (count_row (vocabulary_ v)) app_narr))
      (map (count_row (vocabulary_ v)) mt_narr).

(** [sim_matrix[i, j]]. *)
Definition matrix_get (m : list (list float)) (i j : nat) : exn + float :=
  match nth_error m i with
  | Some r => match nth_error r j with
              | Some x => inr x
              | None => inl IndexError
              end
  | None => inl IndexError
  end.

(** [pd.isnull] on a date cell and on an amount cell. *)
Definition isnull_date (d : option Z) : bool :=
  match d with None => true | Some _ => false end.

Definition isnull_amount (a : option float) : bool :=
  match a with None => true | Some x => isnan x end.

(** Lines 76 and 77. *)
Definition amount_match (a b : float) : bool := le (fabs (sub a b)) tenth.
Definition date_match (d e : Z) : bool := Z.abs (d - e) <=? 1.

(** The body of the inner loop (lines 71-83) on the running
    [(best_score, best_idx)].  The frames carry the default index, so the
    labels [i] and [j] of [iterrows] are positions.  On a date and a float
    the two expressions of the [try] block (lines 76-77) cannot raise, so
    its [except] branch has no case here. *)
Definition inner_body (sim_matrix : list (list float)) (i : nat) (row : MtRow)
    (j : nat) (app_row : AppRow) (best : float * Z) : exn + float * Z :=
  if isnull_date (date row) || isnull_date (app_date app_row)
     || isnull_amount (amount row) || isnull_amount (app_amount app_row)
  then inr best
  else
    match matrix_get sim_matrix i j with
    | inl e => inl e
    | inr score =>
        match date row, app_date app_row, amount row, app_amount app_row with
        | Some d, Some d', Some a, Some a' =>
            if gt score (fst best) && amount_match a a' && date_match d d'
            then inr (score, Z.of_nat j)
            else inr best
        | _, _, _, _ => inr best
        end
    end.

(** [for j, app_row in app_df.iterrows()], from position [j] on. *)
Fixpoint inner_loop (sim_matrix : list (list float)) (i : nat) (row : MtRow)
    (j : nat) (app_rows : list AppRow) (best : float * Z) : exn + float * Z :=
  match app_rows with
  | [] => inr best
  | app_row :: rest =>
      match inner_body sim_matrix i row j app_row best with
      | inl e => inl e
      | inr best' => inner_loop sim_matrix i row (S j) rest best'
      end
  end.

(** [app_df.loc[best_idx, c]]. *)
Definition loc (app : list AppRow) (idx : Z) : option AppRow :=
  if idx <? 0 then None else nth_error app (Z.to_nat idx).

(** Lines 85-96: what one bank row appends to the five lists. *)
Definition emit (app : list AppRow) (best : float * Z) : exn + MatchResult :=
  let (best_score, best_idx) := best in
  if best_idx =? -1
  then inr (mkMatchResult None zero None None None)
  else
    match loc app best_idx with
    | Some e =>
        inr (mkMatchResult (Some best_idx) best_score
               (app_amount e) (app_date e) (Some (app_narration e)))
    | None => inl IndexError
    end.

Definition append_result (acc : Columns) (r : MatchResult) : Columns :=
  mkColumns (matched_index acc ++ [r_matched_index r])
            (sim_scores acc ++ [r_similarity_score r])
            (matched_amount acc ++ [r_matched_amount r])
            (matched_date acc ++ [r_matched_date r])
            (matched_narration acc ++ [r_matched_narration r]).

(** One iteration of the outer loop (lines 68-96). *)
Definition match_row (sim_matrix : list (list float)) (app : list AppRow)
    (i : nat) (row : MtRow) : exn + MatchResult :=
  match inner_loop sim_matrix i row 0 app (zero, -1) with
  | inl e => inl e
  | inr best => emit app best
  end.

(** [for i, row in mt_df.iterrows()], from position [i] on. *)
Fixpoint outer_loop (sim_matrix : list (list float)) (app : list AppRow)
    (i : nat) (rows : list MtRow) (acc : Columns) : exn + Columns :=
  match rows with
  | [] => inr acc
  | row :: rest =>
      match match_row sim_matrix app i row with
      | inl e => inl e
      | inr r => outer_loop sim_matrix app (S i) rest (append_result acc r)
      end
  end.

Definition empty_columns : Columns := mkColumns [] [] [] [] [].

(** [mt_df['narration'] = mt_df['narration'].str.lower()]. *)
Definition lower_row (r : MtRow) : MtRow :=
  mkMtRow (reference r) (account r) (date r) (currency r) (amount r)
          (lower (narration r)).

Definition lower_narration : M unit :=
  st <- get ;;
  put (mkStore (mkMtFrame (map lower_row (mt_rows (mt_df st)))
                          (mt_columns (mt_df st)))
               (app_df st)).

(** Lines 98-102. *)
Definition set_columns (c : Columns) : M unit :=
  st <- get ;;
  put (mkStore (mkMtFrame (mt_rows (mt_df st)) (Some c)) (app_df st)).

(** [reconcile(mt_df, app_df)]: the value returned is [mt_df] itself, the
    frame of the final store. *)
Definition reconcile : M MtFrame :=
  lower_narration ;;;
  st <- get ;;
  let mt_narr := map narration (mt_rows (mt_df st)) in
  let app_narr := map app_narration (app_df st) in
  vectorizer <- lift (fit (mt_narr ++ app_narr)) ;;
  mt_vec <- lift (transform vectorizer mt_narr) ;;
  app_vec <- lift (transform vectorizer app_narr) ;;
  sim_matrix <- lift (cosine_similarity mt_vec app_vec) ;;
  cols <- lift (outer_loop sim_matrix (app_df st) 0 (mt_rows (mt_df st))
                  empty_columns) ;;
  set_columns cols ;;;
  st' <- get ;;
  ret (mt_df st').


End Reconcile.

(** ** The Similarity Scorer in exact arithmetic *)

Module Scorer.

Local Open Scope R_scope.

(** Modelled from the spec: the term weighting of the Similarity Scorer,
    which the script delegates to scikit-learn: the frequency of a token in a
    narration, scaled inversely by the number of narrations that contain the
    token (the smoothed inverse document frequency). *)
Definition idf (n df : nat) : R := ln ((1 + INR n) / (1 + INR df)) + 1.

Definition weights (v : Vectorizer) (row : list nat) : list R :=
  map (fun p => INR (fst p) * idf (n_docs v) (snd p)) (combine row (doc_freq v)).

Fixpoint dot (u w : list R) : R :=
  match u, w with
  | x :: u', y :: w' => x * y + dot u' w'
  | _, _ => 0
  end.

Definition norm (u : list R) : R := sqrt (dot u u).

(** Modelled from the spec: a zero norm is replaced by 1 before dividing, so
    that the cosine against a zero vector is 0 and never an error. *)
Definition handle_zero (n : R) : R := if Req_dec_T n 0 then 1 else n.

Definition normalize (u : list R) : list R :=
  map (fun x => x / handle_zero (norm u)) u.

(** Modelled from the spec: the weighted term-frequency vector of a
    narration, and the cosine similarity of two such vectors (the normalized
    dot product). *)
Definition tfidf (v : Vectorizer) (row : list nat) : list R :=
  normalize (weights v row).

Definition cosine (u w : list R) : R := dot (normalize u) (normalize w).

(** Modelled from the spec: the dense similarity matrix, one row per bank
    narration and one column per ledger narration. *)
Definition similarity (X Y : Matrix) : list (list R) :=
  map (fun x => map (fun y => cosine (tfidf (fitted X) x) (tfidf (fitted Y) y))
                 (counts Y))
      (counts X).

Definition is_zero_vector (u : list R) : Prop := Forall (fun x => x = 0) u.

End Scorer.

(** ** Reading the outcome *)

(** Line [i] of the five result columns. *)
Definition result_at (c : Columns) (i : nat) : option MatchResult :=
  match nth_error (matched_index c) i, nth_error (sim_scores c) i,
        nth_error (matched_amount c) i, nth_error (matched_date c) i,
        nth_error (matched_narration c) i with
  | Some idx, Some sc, Some a, Some d, Some n =>
      Some (mkMatchResult idx sc a d n)
  | _, _, _, _, _ => None
  end.

Definition unmatched : MatchResult := mkMatchResult None zero None None None.

(** What the inner loop holds after the first [n] ledger rows, [srow] being
    the bank row's line of the similarity matrix: either nothing was
    selected and no eligible row scored above 0, or [best] is the first
    eligible row that attains the highest score, and that score is above 0. *)
Definition scanned (row : MtRow) (app : list AppRow) (srow : list float)
    (n : nat) (best : float * Z) : Prop :=
  (best = (zero, -1) /\
   forall k e s, (k < n)%nat -> nth_error app k = Some e ->
     nth_error srow k = Some s -> is_eligible row e = true ->
     gt s zero = false)
  \/
  (exists j e, (j < n)%nat /\ snd best = Z.of_nat j /\
     nth_error app j = Some e /\ nth_error srow j = Some (fst best) /\
     is_eligible row e = true /\ gt (fst best) zero = true /\
     (forall k e' s, (k < j)%nat -> nth_error app k = Some e' ->
        nth_error srow k = Some s -> is_eligible row e' = true ->
        le (fst best) s = false) /\
     (forall k e' s, (j < k < n)%nat -> nth_error app k = Some e' ->
        nth_error srow k = Some s -> is_eligible row e' = true ->
        gt s (fst best) = false)).

(** What the Matcher hands back for one bank row: [unmatched] when no
    eligible ledger row scores above 0, otherwise the copy of the first
    eligible ledger row that attains the highest score. *)
Definition selects (row : MtRow) (app : list AppRow) (srow : list float)
    (r : MatchResult) : Prop :=
  (r = unmatched /\
   forall k e s, nth_error app k = Some e -> nth_error srow k = Some s ->
     is_eligible row e = true -> gt s zero = false)
  \/
  (exists j e s,
     r = mkMatchResult (Some (Z.of_nat j)) s (app_amount e) (app_date e)
           (Some (app_narration e)) /\
     nth_error app j = Some e /\ nth_error srow j = Some s /\
     is_eligible row e = true /\ gt s zero = true /\
     (forall k e' s', (k < j)%nat -> nth_error app k = Some e' ->
        nth_error srow k = Some s' -> is_eligible row e' = true ->
        le s s' = false) /\
     (forall k e' s', (j < k)%nat -> nth_error app k = Some e' ->
        nth_error srow k = Some s' -> is_eligible row e' = true ->
        gt s' s = false)).

Definition set_currency (c : option string) (row : MtRow) : MtRow :=
  mkMtRow (reference row) (account row) (date row) c (amount row)
          (narration row).

Definition set_narration (n : string) (row : MtRow) : MtRow :=
  mkMtRow (reference row) (account row) (date row) (currency row) (amount row)
          n.

(** The rows of [mt_df] once line 54 has run, and the documents line 55
    fits the vectorizer on. *)
Definition lowered (st : Store) : list MtRow :=
  map lower_row (mt_rows (mt_df st)).

Definition corpus (st : Store) : list string :=
  map narration (lowered st) ++ map app_narration (app_df st).

(** The store an exception leaves behind (line 54 has already run), and
    the store once the five columns are set. *)
Definition after_lower (st : Store) : Store :=
  mkStore (mkMtFrame (lowered st) (mt_columns (mt_df st))) (app_df st).

Definition after_return (st : Store) (cols : Columns) : Store :=
  mkStore (mkMtFrame (lowered st) (Some cols)) (app_df st).

(** ** Data to evaluate the model on *)

Module Examples.

(** [date(y, m, d).toordinal()]. *)
Definition ordinal (y m d : Z) : Z :=
  let y' := if m <=? 2 then y - 1 else y in
  let era := y' / 400 in
  let yoe := y' - era * 400 in
  let mp := if m <=? 2 then m + 9 else m - 3 in
  let doy := (153 * mp + 2) / 5 + d - 1 in
  let doe := yoe * 365 + yoe / 4 - yoe / 100 + doy in
  era * 146097 + doe - 719468 + 719163.

Definition add (x y : float) : float := SFadd prec emax x y.
Definition mul (x y : float) : float := SFmul prec emax x y.
Definition fsqrt (x : float) : float := SFsqrt prec emax x.

Fixpoint fdot (u w : list nat) : float :=
  match u, w with
  | x :: u', y :: w' =>
      add (mul (of_Z (Z.of_nat x)) (of_Z (Z.of_nat y))) (fdot u' w')
  | _, _ => zero
  end.

(** A binary64 kernel: the cosine of the two raw count rows (all terms
    weighted alike), 0 when one of them is the zero row. *)
Definition count_cosine (_ : Vectorizer) (x y : list nat) : float :=
  let n := mul (fsqrt (fdot x x)) (fsqrt (fdot y y)) in
  if SFeqb n zero then zero else div (fdot x y) n.

Definition bank_A : MtRow :=
  mkMtRow "REF1" "ACC1" (Some (ordinal 2024 5 1)) (Some "EUR"%string)
    (Some (of_decimal 10000 100)) "Invoice 4521 payment".

Definition ledger_A : list AppRow :=
  [ mkAppRow (Some (ordinal 2024 5 2)) (Some (of_decimal 10005 100))
      "invoice 4521 settlement";
    mkAppRow (Some (ordinal 2024 5 10)) (Some (of_decimal 10000 100))
      "unrelated transfer" ].

Definition store_A : Store := mkStore (mkMtFrame [bank_A] None) ledger_A.

(** Scenario C: an empty bank narration against a ledger entry within both
    tolerances. *)
Definition bank_C : MtRow :=
  mkMtRow "REF3" "ACC1" (Some (ordinal 2024 3 3)) (Some "EUR"%string)
    (Some (of_decimal 1000 100)) "".

Definition ledger_C : list AppRow :=
  [ mkAppRow (Some (ordinal 2024 3 3)) (Some (of_decimal 1000 100)) "refund" ].

Definition store_C : Store := mkStore (mkMtFrame [bank_C] None) ledger_C.

(** A bank row without date and amount (no [:32A:] field in the message). *)
Definition bank_null : MtRow :=
  mkMtRow "REF4" "ACC1" None None None "invoice 4521 settlement".

(** Two ledger entries with the same narration, both within tolerance. *)
Definition ledger_tie : list AppRow :=
  [ mkAppRow (Some (ordinal 2024 5 1)) (Some (of_decimal 10000 100))
      "invoice 4521 payment";
    mkAppRow (Some (ordinal 2024 5 2)) (Some (of_decimal 10000 100))
      "invoice 4521 payment" ].

Definition store_tie : Store := mkStore (mkMtFrame [bank_A] None) ledger_tie.

(** A similarity row on which both entries of [ledger_tie] score alike. *)
Definition half : float := of_decimal 1 2.
Definition sim_tie : list (list float) := [[half; half]].

(** What [reconcile] makes of [store_A] with the kernel [count_cosine]
    (scenario A: ledger row 0 is taken, ledger row 1 is nine days off). *)
Definition frame_A : MtFrame :=
  mkMtFrame [lower_row bank_A]
    (Some (mkColumns [Some 0] [S754_finite false 6004799503160662 (-53)]
             [Some (of_decimal 10005 100)] [Some (ordinal 2024 5 2)]
             [Some "invoice 4521 settlement"%string])).

Definition empty_store : Store := mkStore (mkMtFrame [] None) [].

End Examples.

(** ** The MT910 parser

    [parse_mt910_messages] from the text read at line 11 on: opening and
    reading the file are left out.  The regular expressions are read on
    ASCII text (a digit is one of 0-9), with the splitting on empty matches
    of Python 3.7 and later. *)

Module Parser.

Definition newline : ascii := "010"%char.

Definition is_digit (c : ascii) : bool :=
  let n := nat_of_ascii c in ((48 <=? n) && (n <=? 57))%nat.

Definition is_upper (c : ascii) : bool :=
  let n := nat_of_ascii c in ((65 <=? n) && (n <=? 90))%nat.

(** The class [[\d,\.]]. *)
Definition is_amount_char (c : ascii) : bool :=
  is_digit c || Ascii.eqb c ","%char || Ascii.eqb c "."%char.

(** The characters [str.strip] removes (ASCII range). *)
Definition is_space (c : ascii) : bool :=
  let n := nat_of_ascii c in
  ((9 <=? n) && (n <=? 13) || (28 <=? n) && (n <=? 32))%nat.

(** [re.split(r'(?=^:20:)', content, flags=re.MULTILINE)]: the text is cut
    before every [:20:] that starts a line; [cur] is the piece being read and
    [bol] tells whether the next character starts a line.  A cut at the very
    start leaves an empty first piece. *)
Fixpoint split_from (bol : bool) (cur : string) (s : string) : list string :=
  match s with
  | EmptyString => [cur]
  | String c rest =>
      if bol && prefix ":20:" s
      then cur :: split_from (Ascii.eqb c newline) (String c EmptyString) rest
      else split_from (Ascii.eqb c newline) (cur ++ String c EmptyString) rest
  end.

Definition split_messages (content : string) : list string :=
  split_from true EmptyString content.

Fixpoint strip_prefix (p s : string) : option string :=
  match p, s with
  | EmptyString, _ => Some s
  | String a p', String b s' =>
      if Ascii.eqb a b then strip_prefix p' s' else None
  | String _ _, EmptyString => None
  end.

(** What the group [.*] takes: the characters up to the next newline. *)
Fixpoint first_line (s : string) : string :=
  match s with
  | EmptyString => EmptyString
  | String c rest =>
      if Ascii.eqb c newline then EmptyString else String c (first_line rest)
  end.

(** [re.search] of [tag] followed by the group [.*], group 1: the rest of
    the line after the first occurrence of [tag]. *)
Fixpoint search_tag (tag msg : string) : option string :=
  match strip_prefix tag msg with
  | Some r => Some (first_line r)
  | None =>
      match msg with
      | EmptyString => None
      | String _ rest => search_tag tag rest
      end
  end.

Fixpoint lstrip (s : string) : string :=
  match s with
  | EmptyString => EmptyString
  | String c rest => if is_space c then lstrip rest else s
  end.

Fixpoint rstrip (s : string) : string :=
  match s with
  | EmptyString => EmptyString
  | String c rest =>
      match rstrip rest with
      | EmptyString => if is_space c then EmptyString else String c EmptyString
      | r => String c r
      end
  end.

Definition strip (s : string) : string := rstrip (lstrip s).

Fixpoint all_chars (f : ascii -> bool) (s : string) : bool :=
  match s with
  | EmptyString => true
  | String c rest => f c && all_chars f rest
  end.

Fixpoint take_while (f : ascii -> bool) (s : string) : string :=
  match s with
  | EmptyString => EmptyString
  | String c rest => if f c then String c (take_while f rest) else EmptyString
  end.

Fixpoint drop_while (f : ascii -> bool) (s : string) : string :=
  match s with
  | EmptyString => EmptyString
  | String c rest => if f c then drop_while f rest else s
  end.

(** [:32A:(\d{6})([A-Z]{3})([\d,\.]+)] matched at the start of [s]. *)
Definition match_details (s : string) : option (string * string * string) :=
  match strip_prefix ":32A:" s with
  | None => None
  | Some r =>
      let date_str := substring 0 6 r in
      let currency := substring 6 3 r in
      let amount := take_while is_amount_char
                      (substring 9 (String.length r - 9) r) in
      if (String.length date_str =? 6)%nat && all_chars is_digit date_str
         && (String.length currency =? 3)%nat && all_chars is_upper currency
         && negb (String.eqb amount EmptyString)
      then Some (date_str, currency, amount)
      else None
  end.

(** [re.search] of that pattern: the match at the leftmost position. *)
Fixpoint search_details (msg : string) : option (string * string * string) :=
  match match_details msg with
  | Some g => Some g
  | None =>
      match msg with
      | EmptyString => None
      | String _ rest => search_details rest
      end
  end.

Definition digit_value (c : ascii) : Z := Z.of_nat (nat_of_ascii c) - 48.

Fixpoint int_of_digits_from (acc : Z) (s : string) : Z :=
  match s with
  | EmptyString => acc
  | String c rest => int_of_digits_from (10 * acc + digit_value c) rest
  end.

Definition int_of_digits (s : string) : Z := int_of_digits_from 0 s.

Definition is_leap (y : Z) : bool :=
  (y mod 4 =? 0) && (negb (y mod 100 =? 0) || (y mod 400 =? 0)).

Definition days_in_month (y m : Z) : Z :=
  if m =? 2 then (if is_leap y then 29 else 28)
  else if (m =? 4) || (m =? 6) || (m =? 9) || (m =? 11) then 30 else 31.

(** [datetime.strptime(date_str, '%y%m%d').date()] on six digits, [None]
    standing for the [ValueError] the script catches.  Two-digit years up to
    68 are 20xx, the others 19xx. *)
Definition strptime (date_str : string) : option Z :=
  let yy := int_of_digits (substring 0 2 date_str) in
  let mm := int_of_digits (substring 2 2 date_str) in
  let dd := int_of_digits (substring 4 2 date_str) in
  let year := if yy <=? 68 then 2000 + yy else 1900 + yy in
  if (1 <=? mm) && (mm <=? 12) && (1 <=? dd) && (dd <=? days_in_month year mm)
  then Some (Examples.ordinal year mm dd)
  else None.

(** [amount.replace(',', '.')]. *)
Fixpoint replace_comma (s : string) : string :=
  match s with
  | EmptyString => EmptyString
  | String c rest =>
      String (if Ascii.eqb c ","%char then "."%char else c) (replace_comma rest)
  end.

(** The binary64 number nearest to [n / 10^k]. *)
Definition float_of_scaled (n : Z) (k : nat) : float :=
  match n with
  | Zpos p => SFdiv prec emax (S754_finite false p 0)
                (S754_finite false (Nat.iter k (Pos.mul 10) 1%positive) 0)
  | _ => zero
  end.

(** [float(amount)] on a text of digits and dots: digits, at most one dot,
    at least one digit; anything else is a [ValueError]. *)
Definition float_of_amount (amount : string) : option float :=
  let int_part := take_while is_digit amount in
  let rest := drop_while is_digit amount in
  match rest with
  | EmptyString =>
      if String.eqb int_part EmptyString then None
      else Some (float_of_scaled (int_of_digits int_part) 0)
  | String c rest' =>
      let frac_part := take_while is_digit rest' in
      if Ascii.eqb c "."%char
         && String.eqb (drop_while is_digit rest') EmptyString
         && negb (String.eqb (int_part ++ frac_part) EmptyString)
      then Some (float_of_scaled (int_of_digits (int_part ++ frac_part))
                   (String.length frac_part))
      else None
  end.

Definition stripped (group : option string) : string :=
  match group with
  | Some g => strip g
  | None => EmptyString
  end.

(** One turn of the loop of lines 16-40: the record appended for [msg], or
    the [ValueError] of [float] at line 38. *)
Definition parse_message (msg : string) : exn + MtRow :=
  let trx_ref := search_tag ":20:" msg in
  let account := search_tag ":25:" msg in
  let details := search_details msg in
  let narration := search_tag ":86:" msg in
  match details with
  | Some (date_str, currency, amount) =>
      match float_of_amount (replace_comma amount) with
      | Some x =>
          inr (mkMtRow (stripped trx_ref) (stripped account)
                 (strptime date_str) (Some currency) (Some x)
                 (stripped narration))
      | None => inl (ValueError "could not convert string to float")
      end
  | None =>
      inr (mkMtRow (stripped trx_ref) (stripped account) None None None
             (stripped narration))
  end.

Fixpoint parse_messages (messages : list string) : exn + list MtRow :=
  match messages with
  | [] => inr []
  | msg :: rest =>
      match parse_message msg with
      | inl e => inl e
      | inr row =>
          match parse_messages rest with
          | inl e => inl e
          | inr rows => inr (row :: rows)
          end
      end
  end.

(** [parse_mt910_messages], from the text of the file on. *)
Definition parse_mt910_messages (content : string) : exn + MtFrame :=
  match parse_messages (split_messages content) with
  | inl e => inl e
  | inr rows => inr (mkMtFrame rows None)
  end.

(** The number of commas and dots of an amount text. *)
Fixpoint count_separators (s : string) : nat :=
  match s with
  | EmptyString => 0%nat
  | String c rest =>
      ((if is_digit c then 0 else 1) + count_separators rest)%nat
  end.

Definition no_newline (s : string) : bool :=
  all_chars (fun c => negb (Ascii.eqb c newline)) s.

Definition is_finite (x : float) : bool :=
  match x with
  | S754_zero _ | S754_finite _ _ _ => true
  | _ => false
  end.

(** Neither NaN nor below zero. *)
Definition is_nonnegative (x : float) : bool :=
  match x with
  | S754_zero false | S754_finite false _ _ | S754_infinity false => true
  | _ => false
  end.

(** The record of a message without any of the four fields. *)
Definition blank_row : MtRow :=
  mkMtRow EmptyString EmptyString None None None EmptyString.

End Parser.

(** ** A file to evaluate the parser on *)

(** Two messages: the first complete, the second with the impossible date
    30 February and neither account nor narration. *)
Definition sample_file : string :=
  ":20:REF1
:25:ACC1
:32A:240501EUR100,00
:86:Invoice 4521 payment
:20:REF2
:32A:240230USD5.5
".

Definition sample_frame : MtFrame :=
  mkMtFrame
    [ Parser.blank_row;
      mkMtRow "REF1" "ACC1" (Some (Examples.ordinal 2024 5 1))
        (Some "EUR"%string) (Some (of_decimal 10000 100))
        "Invoice 4521 payment";
      mkMtRow "REF2" "" None (Some "USD"%string) (Some (of_decimal 55 10)) "" ]
    None.

(** The five columns a run on [sample_file] and the ledger of scenario A
    sets, with the kernel [count_cosine]. *)
Definition sample_columns : Columns :=
  mkColumns [None; Some 0; None]
    [zero; S754_finite false 6004799503160662 (-53); zero]
    [None; Some (of_decimal 10005 100); None]
    [None; Some (Examples.ordinal 2024 5 2); None]
    [None; Some "invoice 4521 settlement"%string; None].

(** Two bank rows that differ in reference and in letter case only. *)
Definition store_twins : Store :=
  mkStore
    (mkMtFrame
       [ Examples.bank_A;
         mkMtRow "REF9" "ACC2" (Some (Examples.ordinal 2024 5 1))
           (Some "USD"%string) (Some (of_decimal 10000 100))
           "INVOICE 4521 payment" ]
       None)
    Examples.ledger_A.

(** ** Parsing, then reconciling *)

(** Lines 107 and 109 of [run_reconciliation], on the text of the message
    file and on the ledger frame as [load_application_entries] hands it
    over: the outcome of [reconcile] on the parsed bank frame, or the
    exception of the parser. *)
Definition run_reconciliation
    (tfidf_cosine : Vectorizer -> list nat -> list nat -> float)
    (content : string) (app : list AppRow) : exn + MtFrame :=
  match Parser.parse_mt910_messages content with
  | inl e => inl e
  | inr mt => fst (reconcile tfidf_cosine (mkStore mt app))
  end.

(** ** The scorer's arithmetic, in exact and in binary64 numbers *)

(** Modelled from the spec: the computation behind one cell of the
    similarity matrix, which the script delegates to scikit-learn, written
    once over an arbitrary arithmetic: smoothed inverse document frequency,
    term frequency times that weight, division of each row by its Euclidean
    norm (a row of norm 0 is left as it is), the same division again inside
    [cosine_similarity], and the dot product of the two rows, every sum
    running from 0 through the columns in order. *)
Module Kernel.

Section Arith.

Variable T : Type.
Variables zero one : T.
Variables add mul div : T -> T -> T.
Variables sqrt log : T -> T.
Variable of_nat : nat -> T.
Variable is_zero : T -> bool.

Definition idf (n df : nat) : T :=
  add (log (div (of_nat (1 + n)) (of_nat (1 + df)))) one.

Definition weights (v : Vectorizer) (row : list nat) : list T :=
  map (fun p => mul (of_nat (fst p)) (idf (n_docs v) (snd p)))
      (combine row (doc_freq v)).

Definition dot (u w : list T) : T :=
  fold_left (fun acc p => add acc (mul (fst p) (snd p))) (combine u w) zero.

Definition norm (u : list T) : T := sqrt (dot u u).

Definition normalize (u : list T) : list T :=
  if is_zero (norm u) then u else map (fun x => div x (norm u)) u.

Definition tfidf (v : Vectorizer) (row : list nat) : list T :=
  normalize (weights v row).

Definition cosine (v : Vectorizer) (x y : list nat) : T :=
  dot (normalize (tfidf v x)) (normalize (tfidf v y)).

End Arith.

End Kernel.

(** The cell in exact arithmetic. *)
Definition exact_cosine (v : Vectorizer) (x y : list nat) : R :=
  Kernel.cosine R 0%R 1%R Rplus Rmult Rdiv sqrt ln INR
    (fun x => if Req_dec_T x 0%R then true else false) v x y.

(** The cell in binary64, every operation rounded to nearest; [flog] stands
    for the binary64 logarithm of the platform, and what is asked of it
    ([flog 1.0 = 0.0], or a result not below zero on a quotient of counts)
    is a hypothesis of the statement that needs it.  This is the kernel
    [reconcile] is run with wherever a statement is about the numbers in
    the matrix. *)
Definition tfidf_cosine64 (flog : float -> float)
    (v : Vectorizer) (x y : list nat) : float :=
  Kernel.cosine float zero (of_Z 1) (SFadd prec emax) (SFmul prec emax)
    (SFdiv prec emax) (SFsqrt prec emax) flog
    (fun n => of_Z (Z.of_nat n)) (fun x => SFeqb x zero) v x y.

(** The value 1.0000000000000002, one unit in the last place above 1. *)
Definition one_plus_ulp : float := S754_finite false 4503599627370497 (-52).

(** NaN, or a number whose sign bit is clear: zero, a positive number or
    plus infinity. *)
Definition not_below_zero (x : float) : bool :=
  match x with
  | S754_zero s | S754_infinity s | S754_finite s _ _ => negb s
  | S754_nan => true
  end.

(** A bank row and a ledger row with the same date, amount and narration. *)
Definition store_same : Store :=
  mkStore (mkMtFrame [Examples.bank_A] None)
    [ mkAppRow (Some (Examples.ordinal 2024 5 1)) (Some (of_decimal 10000 100))
        "invoice 4521 payment" ].

(** A bank row of 50.10 and a ledger row of 50.00 on the same day with the
    same narration. *)
Definition store_ten_cents : Store :=
  mkStore
    (mkMtFrame
       [ mkMtRow "REF5" "ACC1" (Some (Examples.ordinal 2024 1 1))
           (Some "EUR"%string) (Some (of_decimal 5010 100)) "refund 77" ]
       None)
    [ mkAppRow (Some (Examples.ordinal 2024 1 1)) (Some (of_decimal 5000 100))
        "refund 77" ].

(** ** Order facts on binary64 comparisons *)

Lemma gt_irrefl (x : float) : gt x x = false.
Proof.
unfold gt, SFltb.
destruct x as [s | s | | s m e]; try destruct s; simpl; try reflexivity;
  change (Pos.compare_cont Eq m m) with (Pos.compare m m);
  rewrite Z.compare_refl, Pos.compare_refl; reflexivity.
Qed.

Ltac compare_cases :=
  repeat match goal with
  | H : context [Pos.compare_cont Eq ?m1 ?m2] |- _ =>
      change (Pos.compare_cont Eq m1 m2) with (Pos.compare m1 m2) in H
  | |- context [Pos.compare_cont Eq ?m1 ?m2] =>
      change (Pos.compare_cont Eq m1 m2) with (Pos.compare m1 m2)
  end;
  repeat match goal with
  | H : context [Z.compare ?e1 ?e2] |- _ => destruct (Z.compare_spec e1 e2)
  | |- context [Z.compare ?e1 ?e2] => destruct (Z.compare_spec e1 e2)
  | H : context [Pos.compare ?m1 ?m2] |- _ => destruct (Pos.compare_spec m1 m2)
  | |- context [Pos.compare ?m1 ?m2] => destruct (Pos.compare_spec m1 m2)
  end.

Ltac float_order :=
  unfold gt, le, SFltb, SFleb, SFcompare; intros;
  repeat match goal with
  | x : float |- _ => destruct x as [[|] | [|] | | [|] ? ?]
  end;
  simpl in *; try congruence; try reflexivity;
  compare_cases; simpl in *; subst; try congruence; try reflexivity; try lia.

(** [a < b] and [b <= c] give [a < c]. *)
Lemma gt_le_trans (a b c : float) :
  gt b a = true -> le b c = true -> gt c a = true.
Proof. float_order. Qed.

Lemma gt_trans (a b c : float) :
  gt b a = true -> gt c b = true -> gt c a = true.
Proof. float_order. Qed.

Lemma gt_le (a b : float) : gt b a = true -> le a b = true.
Proof. float_order. Qed.

Lemma gt_not_le (a b : float) : gt b a = true -> le b a = false.
Proof. float_order. Qed.

(** Away from NaN the order is total: [b <= a] fails only when [a < b]. *)
Lemma not_le_gt (a b : float) :
  isnan a = false -> isnan b = false -> le b a = false -> gt b a = true.
Proof. unfold isnan. float_order. Qed.

Lemma gt_not_nan (a b : float) : gt b a = true -> isnan b = false.
Proof. unfold isnan. float_order. Qed.

Lemma le_refl (a b : float) : gt a b = true -> le a a = true.
Proof. float_order. Qed.

(** ** The inner loop *)

Lemma is_eligible_lower_row (row : MtRow) (e : AppRow) :
  is_eligible (lower_row row) e = is_eligible row e.
Proof. reflexivity. Qed.

Lemma is_eligible_not_null (row : MtRow) (e : AppRow) :
  is_eligible row e = true ->
  isnull_date (date row) = false /\ isnull_date (app_date e) = false /\
  isnull_amount (amount row) = false /\ isnull_amount (app_amount e) = false.
Proof.
unfold is_eligible, isnull_date, isnull_amount.
destruct (date row), (app_date e), (amount row) as [a|], (app_amount e) as [a'|];
  try discriminate.
intros H. apply andb_prop in H as [H _].
destruct a as [[|] | [|] | | [|] ? ?], a' as [[|] | [|] | | [|] ? ?];
  try discriminate H; repeat split; reflexivity.
Qed.

Section InnerLoop.

Variable sim_matrix : list (list float).
Variable i : nat.
Variable row : MtRow.

Lemma inner_body_null (j : nat) (e : AppRow) (best : float * Z) :
  isnull_date (date row) || isnull_date (app_date e)
  || isnull_amount (amount row) || isnull_amount (app_amount e) = true ->
  inner_body sim_matrix i row j e best = inr best.
Proof. unfold inner_body. intros ->. reflexivity. Qed.

Lemma inner_body_spec (j : nat) (e : AppRow) (best : float * Z) (score : float) :
  matrix_get sim_matrix i j = inr score ->
  inner_body sim_matrix i row j e best =
  inr (if is_eligible row e && gt score (fst best)
       then (score, Z.of_nat j) else best).
Proof.
intros Hget. unfold inner_body. rewrite Hget.
destruct (is_eligible row e) eqn:El.
- destruct (is_eligible_not_null _ _ El) as (-> & -> & -> & ->). simpl.
  unfold is_eligible in El.
  destruct (date row), (app_date e), (amount row), (app_amount e);
    try discriminate.
  unfold amount_match, date_match. apply andb_prop in El as [-> ->].
  rewrite !andb_true_r. destruct (gt score (fst best)); reflexivity.
- simpl.
  destruct (isnull_date (date row) || isnull_date (app_date e)
            || isnull_amount (amount row) || isnull_amount (app_amount e));
    [reflexivity|].
  unfold is_eligible in El.
  destruct (date row), (app_date e), (amount row), (app_amount e);
    try reflexivity.
  unfold amount_match, date_match.
  destruct (gt score (fst best)); simpl; [rewrite El|]; reflexivity.
Qed.

Variable app : list AppRow.
Variable srow : list float.
Hypothesis Hrow : nth_error sim_matrix i = Some srow.
Hypothesis Hlen : List.length srow = List.length app.

Lemma matrix_get_row (j : nat) (s : float) :
  nth_error srow j = Some s -> matrix_get sim_matrix i j = inr s.
Proof. unfold matrix_get. rewrite Hrow. intros ->. reflexivity. Qed.

Lemma scanned_step (n : nat) (e : AppRow) (s : float) (best : float * Z) :
  nth_error app n = Some e -> nth_error srow n = Some s ->
  scanned row app srow n best ->
  scanned row app srow (S n)
    (if is_eligible row e && gt s (fst best) then (s, Z.of_nat n) else best).
Proof.
intros He Hs [[-> Hnone] | (j & ej & Hj & Hidx & Hej & Hsj & Elj & Hpos & Hbefore & Hafter)].
- simpl fst. destruct (is_eligible row e) eqn:El; simpl;
    [destruct (gt s zero) eqn:Hgt|].
  + right. exists n, e. simpl. repeat split; auto; try lia.
    * intros k e' s' Hk He' Hs' El'. 
      destruct (le s s') eqn:Hle; [|reflexivity].
      pose proof (Hnone k e' s' Hk He' Hs' El') as Hx. rewrite (gt_le_trans _ _ _ Hgt Hle) in Hx.
      discriminate.
  + left. split; [reflexivity|]. intros k e' s' Hk He' Hs' El'.
    assert (k = n \/ k < n)%nat as [-> | Hk'] by lia.
    * congruence.
    * eauto.
  + left. split; [reflexivity|]. intros k e' s' Hk He' Hs' El'.
    assert (k = n \/ k < n)%nat as [-> | Hk'] by lia.
    * congruence.
    * eauto.
- destruct (is_eligible row e && gt s (fst best)) eqn:Hc.
  + apply andb_prop in Hc as [El Hgt]. right. exists n, e. simpl.
    repeat split; auto; try lia.
    * eapply gt_trans; eauto.
    * intros k e' s' Hk He' Hs' El'.
      destruct (le s s') eqn:Hle; [|reflexivity].
      pose proof (gt_le_trans _ _ _ Hgt Hle) as Hgt'.
      assert (k < j \/ k = j \/ j < k < n)%nat as [Hk' | [-> | Hk']] by lia.
      -- pose proof (Hbefore k e' s' Hk' He' Hs' El') as Hx. rewrite (gt_le _ _ Hgt') in Hx.
         discriminate.
      -- assert (s' = fst best) by congruence. subst s'.
         rewrite gt_irrefl in Hgt'. discriminate.
      -- pose proof (Hafter k e' s' Hk' He' Hs' El') as Hx. rewrite Hgt' in Hx. discriminate.
  + right. exists j, ej. repeat split; auto; try lia.
    intros k e' s' Hk He' Hs' El'.
    assert (k = n \/ j < k < n)%nat as [-> | Hk'] by lia.
    * assert (e' = e) by congruence. assert (s' = s) by congruence. subst.
      rewrite El' in Hc. exact Hc.
    * eauto.
Qed.

Lemma inner_loop_scanned (rest pre : list AppRow) (best : float * Z) :
  app = pre ++ rest ->
  scanned row app srow (List.length pre) best ->
  exists best',
    inner_loop sim_matrix i row (List.length pre) rest best = inr best' /\
    scanned row app srow (List.length app) best'.
Proof.
revert pre best. induction rest as [|e rest IH]; intros pre best Happ Hsc.
- exists best. split; [reflexivity|]. rewrite app_nil_r in Happ.
  rewrite <- Happ in Hsc. exact Hsc.
- assert (He : nth_error app (List.length pre) = Some e).
  { rewrite Happ, nth_error_app2, Nat.sub_diag by lia. reflexivity. }
  destruct (nth_error srow (List.length pre)) as [s|] eqn:Hs.
  2:{ apply nth_error_None in Hs. rewrite Hlen, Happ, length_app in Hs.
      simpl in Hs. lia. }
  simpl. rewrite (inner_body_spec _ _ _ _ (matrix_get_row _ _ Hs)).
  specialize (IH (pre ++ [e])
    (if is_eligible row e && gt s (fst best)
     then (s, Z.of_nat (List.length pre)) else best)).
  rewrite length_app, Nat.add_1_r in IH. apply IH.
  + rewrite <- app_assoc. exact Happ.
  + apply scanned_step; assumption.
Qed.

End InnerLoop.

Lemma inner_loop_null (sim_matrix : list (list float)) (i : nat) (row : MtRow)
    (app : list AppRow) (j : nat) (best : float * Z) :
  isnull_date (date row) || isnull_amount (amount row) = true ->
  inner_loop sim_matrix i row j app best = inr best.
Proof.
intros Hnull. revert j. induction app as [|e app IH]; intros j; simpl.
- reflexivity.
- rewrite inner_body_null; [apply IH|].
  destruct (isnull_date (date row)), (isnull_amount (amount row)),
    (isnull_date (app_date e)); simpl in *; congruence.
Qed.

(** ** One bank row *)

Lemma emit_scanned (row : MtRow) (app : list AppRow) (srow : list float)
    (best : float * Z) :
  scanned row app srow (List.length app) best ->
  (best = (zero, -1) /\ emit app best = inr unmatched)
  \/ (exists j e, snd best = Z.of_nat j /\ nth_error app j = Some e /\
        emit app best =
        inr (mkMatchResult (Some (Z.of_nat j)) (fst best) (app_amount e)
               (app_date e) (Some (app_narration e)))).
Proof.
intros [[-> _] | (j & e & Hj & Hidx & He & _)].
- left. split; reflexivity.
- right. exists j, e. repeat split; auto.
  destruct best as [b idx]. simpl in *. subst idx. unfold emit, loc.
  replace (Z.of_nat j =? -1) with false by (symmetry; apply Z.eqb_neq; lia).
  replace (Z.of_nat j <? 0) with false by (symmetry; apply Z.ltb_ge; lia).
  rewrite Nat2Z.id, He. reflexivity.
Qed.

Lemma match_row_returns (sim_matrix : list (list float)) (app : list AppRow)
    (i : nat) (row : MtRow) (srow : list float) :
  nth_error sim_matrix i = Some srow ->
  List.length srow = List.length app ->
  exists best r,
    inner_loop sim_matrix i row 0 app (zero, -1) = inr best /\
    scanned row app srow (List.length app) best /\
    emit app best = inr r /\
    match_row sim_matrix app i row = inr r.
Proof.
intros Hrow Hlen.
destruct (inner_loop_scanned sim_matrix i row app srow Hrow Hlen app []
            (zero, -1) eq_refl) as (best & Hloop & Hsc).
{ left. split; [reflexivity|]. simpl. intros; lia. }
simpl in Hloop.
assert (exists r, emit app best = inr r) as [r Hr].
{ destruct (emit_scanned _ _ _ _ Hsc) as [[_ H] | (j & e & _ & _ & H)]; eauto. }
exists best, r. unfold match_row. rewrite Hloop. auto.
Qed.

Lemma match_row_selects (sim_matrix : list (list float)) (app : list AppRow)
    (i : nat) (row : MtRow) (srow : list float) :
  nth_error sim_matrix i = Some srow ->
  List.length srow = List.length app ->
  exists r, match_row sim_matrix app i row = inr r /\ selects row app srow r.
Proof.
intros Hrow Hlen.
destruct (match_row_returns _ _ _ row _ Hrow Hlen)
  as (best & r & _ & Hsc & Hemit & Hr).
exists r. split; [exact Hr|].
assert (Hin : forall k (e : AppRow), nth_error app k = Some e ->
                (k < List.length app)%nat).
{ intros k e H. apply nth_error_Some. congruence. }
destruct (emit_scanned _ _ _ _ Hsc) as [[-> H] | (j & e & Hidx & He & H)];
  rewrite H in Hemit; injection Hemit as <-.
- left. split; [reflexivity|].
  destruct Hsc as [[_ Hnone] | (j & e & _ & Hidx & _)]; [|simpl in Hidx; lia].
  intros k e s Hk. eauto.
- right.
  destruct Hsc as [[-> _] | (j' & e' & Hj' & Hidx' & He' & Hs' & El & Hpos & Hb & Ha)];
    [simpl in Hidx; lia|].
  assert (j' = j) by lia. subst j'.
  assert (e' = e) by congruence. subst e'.
  exists j, e, (fst best). repeat split; auto.
  intros k e' s' Hk He'' Hs'' El'. eapply Ha; eauto.
Qed.

Lemma selects_lower_row (row : MtRow) (app : list AppRow) (srow : list float)
    (r : MatchResult) :
  selects (lower_row row) app srow r -> selects row app srow r.
Proof. intros H. exact H. Qed.

(** ** The outer loop *)

Lemma outer_loop_inr (sim_matrix : list (list float)) (app : list AppRow)
    (rows : list MtRow) :
  forall (i : nat) (acc cols : Columns),
  outer_loop sim_matrix app i rows acc = inr cols ->
  exists rs,
    cols = fold_left append_result rs acc /\
    List.length rs = List.length rows /\
    forall k row, nth_error rows k = Some row ->
      exists r, nth_error rs k = Some r /\
                match_row sim_matrix app (i + k) row = inr r.
Proof.
induction rows as [|row rows IH]; intros i acc cols H; simpl in H.
- exists []. inversion H. repeat split. intros [|k] row; discriminate.
- destruct (match_row sim_matrix app i row) as [e|r] eqn:Hr; [discriminate|].
  destruct (IH _ _ _ H) as (rs & -> & Hlen & Hk).
  exists (r :: rs). repeat split; simpl; [lia|].
  intros [|k] row'; simpl.
  + intros [= <-]. exists r. rewrite Nat.add_0_r. auto.
  + intros Hrow'. destruct (Hk _ _ Hrow') as (r' & ? & ?).
    exists r'. rewrite <- Nat.add_succ_comm. auto.
Qed.

Lemma outer_loop_total (sim_matrix : list (list float)) (app : list AppRow)
    (rows : list MtRow) :
  forall (i : nat) (acc : Columns),
  (forall k row, nth_error rows k = Some row ->
     exists r, match_row sim_matrix app (i + k) row = inr r) ->
  exists cols, outer_loop sim_matrix app i rows acc = inr cols.
Proof.
induction rows as [|row rows IH]; intros i acc H; simpl.
- eauto.
- destruct (H 0%nat row eq_refl) as [r Hr]. rewrite Nat.add_0_r in Hr.
  rewrite Hr. apply IH. intros k row' Hk.
  rewrite Nat.add_succ_comm. apply (H (S k)). exact Hk.
Qed.

Lemma result_at_fold (rs : list MatchResult) :
  forall (acc : Columns) (n : nat),
  List.length (matched_index acc) = n -> List.length (sim_scores acc) = n ->
  List.length (matched_amount acc) = n -> List.length (matched_date acc) = n ->
  List.length (matched_narration acc) = n ->
  let cols := fold_left append_result rs acc in
  (List.length (matched_index cols) = n + List.length rs /\
   List.length (sim_scores cols) = n + List.length rs /\
   List.length (matched_amount cols) = n + List.length rs /\
   List.length (matched_date cols) = n + List.length rs /\
   List.length (matched_narration cols) = n + List.length rs)%nat /\
  forall k r, nth_error rs k = Some r -> result_at cols (n + k) = Some r.
Proof.
induction rs as [|r rs IH]; intros acc n H1 H2 H3 H4 H5; simpl.
- repeat split; try lia. intros [|k] r; discriminate.
- destruct (IH (append_result acc r) (S n)) as [Hl Hk];
    try (simpl; rewrite length_app; simpl; lia).
  split; [simpl in Hl; repeat split; lia|].
  intros [|k] r'; simpl.
  + intros [= <-]. rewrite Nat.add_0_r.
    assert (Hpre : forall rs' acc',
      result_at acc' n = Some r ->
      result_at (fold_left append_result rs' acc') n = Some r).
    { clear. induction rs' as [|r' rs' IH']; intros acc' H; simpl; auto.
      apply IH'. unfold result_at in *. simpl.
      destruct (nth_error (matched_index acc') n) eqn:E1; try discriminate.
      destruct (nth_error (sim_scores acc') n) eqn:E2; try discriminate.
      destruct (nth_error (matched_amount acc') n) eqn:E3; try discriminate.
      destruct (nth_error (matched_date acc') n) eqn:E4; try discriminate.
      destruct (nth_error (matched_narration acc') n) eqn:E5; try discriminate.
      rewrite !nth_error_app1 by (apply nth_error_Some; congruence).
      rewrite E1, E2, E3, E4, E5. exact H. }
    apply Hpre. unfold result_at. simpl.
    rewrite !nth_error_app2 by lia.
    rewrite H1, H2, H3, H4, H5, Nat.sub_diag. simpl. destruct r; reflexivity.
  + intros Hr'. rewrite <- Nat.add_succ_comm. apply Hk. exact Hr'.
Qed.

(** ** [reconcile] as a whole *)

Section ReconcileFacts.

Variable tfidf_cosine : Vectorizer -> list nat -> list nat -> float.


Lemma scores_shape (v : Vectorizer) (mt_narr app_narr : list string) :
  List.length (scores tfidf_cosine v mt_narr app_narr) = List.length mt_narr /\
  forall i srow, nth_error (scores tfidf_cosine v mt_narr app_narr) i = Some srow ->
    List.length srow = List.length app_narr.
Proof.
unfold scores. split.
- rewrite !length_map. reflexivity.
- intros i srow H. apply nth_error_In, in_map_iff in H as (x & <- & _).
  rewrite !length_map. reflexivity.
Qed.

Lemma reconcile_unfold (st : Store) :
  reconcile tfidf_cosine st =
  match fit (corpus st) with
  | inl e => (inl e, after_lower st)
  | inr v =>
      match lowered st, app_df st with
      | [], _ | _, [] =>
          (inl (ValueError "Found array with 0 sample(s)"), after_lower st)
      | _, _ =>
          match outer_loop
                  (scores tfidf_cosine v (map narration (lowered st))
                     (map app_narration (app_df st)))
                  (app_df st) 0 (lowered st) empty_columns with
          | inl e => (inl e, after_lower st)
          | inr cols =>
              (inr (mkMtFrame (lowered st) (Some cols)), after_return st cols)
          end
      end
  end.
Proof.
unfold reconcile, bind, lower_narration, set_columns, get, put, lift,
  ret, after_lower, after_return, corpus, lowered. simpl.
destruct (fit _) as [e|v]; [reflexivity|].
destruct (map lower_row (mt_rows (mt_df st))) as [|r rs]; [reflexivity|].
destruct (app_df st) as [|a l]; [reflexivity|].
simpl. unfold scores. simpl.
repeat match goal with
| |- context [match ?x with inl _ => _ | inr _ => _ end] => destruct x
end; reflexivity.
Qed.

(** The loops never raise on the matrix [cosine_similarity] returns. *)
Lemma loops_return (v : Vectorizer) (rows : list MtRow) (app : list AppRow) :
  exists cols,
    outer_loop (scores tfidf_cosine v (map narration rows) (map app_narration app))
      app 0 rows empty_columns = inr cols.
Proof.
apply outer_loop_total. intros k row Hk. simpl.
destruct (scores_shape v (map narration rows) (map app_narration app))
  as [Hlen Hrows].
destruct (nth_error (scores tfidf_cosine v (map narration rows) (map app_narration app)) k)
  as [srow|] eqn:Hs.
- specialize (Hrows _ _ Hs). rewrite length_map in Hrows.
  destruct (match_row_returns _ app k row srow Hs Hrows) as (b & r & _ & _ & _ & H).
  eauto.
- apply nth_error_None in Hs. rewrite Hlen, length_map in Hs.
  assert (k < List.length rows)%nat by (apply nth_error_Some; congruence). lia.
Qed.

Lemma reconcile_inr (st st' : Store) (frame : MtFrame) :
  reconcile tfidf_cosine st = (inr frame, st') ->
  exists v cols,
    fit (corpus st) = inr v /\
    mt_rows (mt_df st) <> [] /\ app_df st <> [] /\
    outer_loop (scores tfidf_cosine v (map narration (lowered st))
                  (map app_narration (app_df st)))
      (app_df st) 0 (lowered st) empty_columns = inr cols /\
    frame = mkMtFrame (lowered st) (Some cols) /\
    st' = mkStore frame (app_df st).
Proof.
rewrite reconcile_unfold. destruct (fit (corpus st)) as [e|v]; [discriminate|].
unfold after_return.
assert (Hmt : mt_rows (mt_df st) <> [] \/ lowered st = []).
{ unfold lowered. destruct (mt_rows (mt_df st)); [right; reflexivity|].
  left; discriminate. }
destruct (lowered st) as [|r rs] eqn:Hr; [discriminate|].
destruct (app_df st) as [|a l] eqn:Ha; [discriminate|].
destruct (outer_loop _ _ _ _ _) as [e|cols] eqn:Ho; [discriminate|].
intros [= <- <-]. exists v, cols.
destruct Hmt as [Hmt|]; [|discriminate].
repeat split; auto. discriminate.
Qed.

Lemma reconcile_returns (st : Store) (v : Vectorizer) :
  fit (corpus st) = inr v ->
  mt_rows (mt_df st) <> [] -> app_df st <> [] ->
  exists cols,
    reconcile tfidf_cosine st = (inr (mkMtFrame (lowered st) (Some cols)),
                    after_return st cols).
Proof.
intros Hfit Hmt Happ. rewrite reconcile_unfold, Hfit.
destruct (loops_return v (lowered st) (app_df st)) as [cols Hc].
exists cols. rewrite Hc. unfold lowered in *.
destruct (mt_rows (mt_df st)); [congruence|].
destruct (app_df st); [congruence|]. reflexivity.
Qed.

Lemma nth_error_lowered (st : Store) (i : nat) (row : MtRow) :
  nth_error (mt_rows (mt_df st)) i = Some row ->
  nth_error (lowered st) i = Some (lower_row row).
Proof. intros H. unfold lowered. rewrite nth_error_map, H. reflexivity. Qed.

(** Every bank row gets the line the Matcher computes for it on its own row
    of the similarity matrix. *)
Lemma reconcile_lines (st st' : Store) (frame : MtFrame) :
  reconcile tfidf_cosine st = (inr frame, st') ->
  exists v cols,
    fit (corpus st) = inr v /\
    frame = mkMtFrame (lowered st) (Some cols) /\
    st' = mkStore frame (app_df st) /\
    (let n := List.length (mt_rows (mt_df st)) in
     List.length (matched_index cols) = n /\
     List.length (sim_scores cols) = n /\
     List.length (matched_amount cols) = n /\
     List.length (matched_date cols) = n /\
     List.length (matched_narration cols) = n) /\
    forall i row, nth_error (mt_rows (mt_df st)) i = Some row ->
      exists r srow,
        result_at cols i = Some r /\
        nth_error (scores tfidf_cosine v (map narration (lowered st))
                     (map app_narration (app_df st))) i = Some srow /\
        srow = map (fun e => tfidf_cosine v
                      (count_row (vocabulary_ v) (lower (narration row)))
                      (count_row (vocabulary_ v) (app_narration e)))
                 (app_df st) /\
        match_row (scores tfidf_cosine v (map narration (lowered st))
                     (map app_narration (app_df st)))
          (app_df st) i (lower_row row) = inr r /\
        selects row (app_df st) srow r.
Proof.
intros H.
destruct (reconcile_inr _ _ _ H) as (v & cols & Hfit & Hmt & Happ & Hloop & -> & ->).
exists v, cols. repeat split; auto.
all: destruct (outer_loop_inr _ _ _ _ _ _ Hloop) as (rs & -> & Hlen & Hk).
all: destruct (result_at_fold rs empty_columns 0 eq_refl eq_refl eq_refl eq_refl
                 eq_refl) as [(L1 & L2 & L3 & L4 & L5) Hat].
all: unfold lowered in Hlen; rewrite length_map in Hlen; simpl in *; try lia.
intros i row Hrow.
destruct (Hk i _ (nth_error_lowered _ _ _ Hrow)) as (r & Hr & Hm).
set (srow := map (fun e => tfidf_cosine v
                    (count_row (vocabulary_ v) (lower (narration row)))
                    (count_row (vocabulary_ v) (app_narration e)))
               (app_df st)).
assert (Hs : nth_error (scores tfidf_cosine v (map narration (lowered st))
                          (map app_narration (app_df st))) i = Some srow).
{ unfold scores, lowered.
  rewrite !nth_error_map, Hrow. simpl. subst srow.
  rewrite !map_map. reflexivity. }
exists r, srow. repeat split; auto.
destruct (match_row_selects _ (app_df st) i (lower_row row) srow Hs)
  as (r' & Hr' & Hsel).
{ subst srow. rewrite length_map. reflexivity. }
assert (r' = r) by congruence. subst r'. exact Hsel.
Qed.

End ReconcileFacts.

(** * The claims *)

(** ** The Matcher *)

(** C1: for every bank row, on a similarity row as long as the ledger, the
    Matcher returns a line, and that line is either [unmatched], when no
    eligible ledger row scores strictly above the initial 0, or the copy of
    an eligible row [j] whose score is strictly above 0, strictly above the
    score of every eligible row before it and not below the score of any
    eligible row after it.  Hence an eligible row that only ties an earlier
    eligible row is not selected, a row whose score is not above 0 is never
    selected, and a bank row all of whose eligible candidates score exactly 0
    is reported unmatched. *)
Theorem matcher_strictly_greater_first_wins :
  forall (sim_matrix : list (list float)) (i : nat) (row : MtRow)
         (app : list AppRow) (srow : list float),
  nth_error sim_matrix i = Some srow ->
  List.length srow = List.length app ->
  exists r,
    match_row sim_matrix app i row = inr r /\
    selects row app srow r /\
    (forall j k e s, (k < j)%nat -> nth_error app k = Some e ->
       is_eligible row e = true -> nth_error srow k = Some s ->
       nth_error srow j = Some s ->
       r_matched_index r <> Some (Z.of_nat j)) /\
    (forall j s, nth_error srow j = Some s -> gt s zero = false ->
       r_matched_index r <> Some (Z.of_nat j)) /\
    ((forall k e, nth_error app k = Some e -> is_eligible row e = true ->
        nth_error srow k = Some zero) ->
     r = unmatched).
Proof.
intros sim_matrix i row app srow Hrow Hlen.
destruct (match_row_selects sim_matrix app i row srow Hrow Hlen)
  as (r & Hr & Hsel).
exists r. split; [exact Hr|]. split; [exact Hsel|].
destruct Hsel as [[-> Hnone] | (j & e & s & -> & He & Hs & El & Hpos & Hb & Ha)].
- repeat split; try discriminate.
- simpl. repeat split.
  + intros j' k e' s' Hk He' El' Hs' Hs'' [= Hj].
    apply Nat2Z.inj in Hj. subst j'.
    assert (s' = s) by congruence. subst s'.
    pose proof (Hb k e' s Hk He' Hs' El') as Hx.
    rewrite (le_refl _ _ Hpos) in Hx. discriminate.
  + intros j' s' Hs' Hz [= Hj]. apply Nat2Z.inj in Hj. subst j'.
    congruence.
  + intros Hzero. specialize (Hzero j e He El).
    assert (s = zero) by congruence. subst s. discriminate Hpos.
Qed.

Import Examples.

Lemma matcher_strictly_greater_first_wins_witness :
  nth_error sim_tie 0 = Some [half; half] /\
  List.length [half; half] = List.length ledger_tie /\
  exists r,
    match_row sim_tie ledger_tie 0 bank_A = inr r /\
    selects bank_A ledger_tie [half; half] r /\
    (forall j k e s, (k < j)%nat -> nth_error ledger_tie k = Some e ->
       is_eligible bank_A e = true -> nth_error [half; half] k = Some s ->
       nth_error [half; half] j = Some s ->
       r_matched_index r <> Some (Z.of_nat j)) /\
    (forall j s, nth_error [half; half] j = Some s -> gt s zero = false ->
       r_matched_index r <> Some (Z.of_nat j)) /\
    ((forall k e, nth_error ledger_tie k = Some e ->
        is_eligible bank_A e = true ->
        nth_error [half; half] k = Some zero) ->
     r = unmatched).
Proof.
split; [reflexivity|]. split; [reflexivity|].
apply (matcher_strictly_greater_first_wins sim_tie 0 bank_A ledger_tie
         [half; half]); reflexivity.
Defined.

(** On a tie the earlier of the two eligible ledger rows is the one kept. *)
Example tie_keeps_first :
  match_row sim_tie ledger_tie 0 bank_A =
  inr (mkMatchResult (Some 0) half (Some (of_decimal 10000 100))
         (Some (ordinal 2024 5 1)) (Some "invoice 4521 payment"%string)).
Proof. vm_compute. reflexivity. Qed.

(** Scenario C: eligible, similarity exactly 0, reported unmatched. *)
Example scenario_C :
  is_eligible bank_C (mkAppRow (Some (ordinal 2024 3 3))
                        (Some (of_decimal 1000 100)) "refund") = true /\
  match_row [[zero]] ledger_C 0 bank_C = inr unmatched.
Proof. split; vm_compute; reflexivity. Qed.

(** ** The Candidate Filter *)

(** C2, amended: a pair whose dates and amounts are all present is taken by
    the inner loop, when its score beats the running best, if and only if
    the binary64 value of [abs (a - a')], computed on the two binary64
    amounts, is at most the binary64 value of 0.1, and [abs (d - d') <= 1];
    otherwise the running best is kept.  Both bounds are inclusive on the
    values computed: a computed difference of 0.1 (0.10 against 0.00) and
    one day pass, 0.11 against 0.00 and two days fail.  The currency column
    plays no part. *)
Theorem eligibility_is_amount_and_date_tolerance :
  forall (sim_matrix : list (list float)) (i j : nat) (row : MtRow)
         (app_row : AppRow) (best : float * Z) (score : float)
         (d d' : Z) (a a' : float),
  date row = Some d -> app_date app_row = Some d' ->
  amount row = Some a -> app_amount app_row = Some a' ->
  isnan a = false -> isnan a' = false ->
  matrix_get sim_matrix i j = inr score ->
  gt score (fst best) = true ->
  (inner_body sim_matrix i row j app_row best = inr (score, Z.of_nat j) <->
   le (fabs (sub a a')) tenth = true /\ Z.abs (d - d') <= 1) /\
  (inner_body sim_matrix i row j app_row best = inr best <->
   ~ (le (fabs (sub a a')) tenth = true /\ Z.abs (d - d') <= 1)) /\
  (is_eligible row app_row = true <->
   le (fabs (sub a a')) tenth = true /\ Z.abs (d - d') <= 1) /\
  (forall c, inner_body sim_matrix i (set_currency c row) j app_row best =
             inner_body sim_matrix i row j app_row best) /\
  amount_match tenth zero = true /\
  amount_match (of_decimal 11 100) zero = false /\
  date_match d (d + 1) = true /\ date_match d (d + 2) = false.
Proof.
intros sim_matrix i j row app_row best score d d' a a' Hd Hd' Ha Ha' Nn Nn'
  Hget Hgt.
assert (Hel : is_eligible row app_row = true <->
              le (fabs (sub a a')) tenth = true /\ Z.abs (d - d') <= 1).
{ unfold is_eligible. rewrite Hd, Hd', Ha, Ha'.
  rewrite andb_true_iff, Z.leb_le. reflexivity. }
assert (Hne : (score, Z.of_nat j) <> best).
{ intros <-. simpl in Hgt. rewrite gt_irrefl in Hgt. discriminate. }
pose proof (inner_body_spec sim_matrix i row j app_row best score Hget) as Hb.
rewrite Hgt, andb_true_r in Hb.
split; [|split; [|split; [exact Hel|split; [|split; [|split; [|split]]]]]].
- rewrite Hb. split.
  + destruct (is_eligible row app_row); intros H; [apply Hel; reflexivity|].
    injection H as H'. congruence.
  + intros H. apply Hel in H. rewrite H. reflexivity.
- rewrite Hb. split.
  + destruct (is_eligible row app_row); intros H.
    * injection H as H'. contradiction.
    * intros H'. apply Hel in H'. discriminate.
  + intros H. destruct (is_eligible row app_row); [|reflexivity].
    exfalso. apply H, Hel. reflexivity.
- intros c. unfold inner_body. reflexivity.
- vm_compute. reflexivity.
- vm_compute. reflexivity.
- unfold date_match. apply Z.leb_le. lia.
- unfold date_match. apply Z.leb_gt. lia.
Qed.

Lemma eligibility_is_amount_and_date_tolerance_witness :
  date bank_A = Some (ordinal 2024 5 1) /\
  app_date (mkAppRow (Some (ordinal 2024 5 2)) (Some (of_decimal 10005 100))
              "invoice 4521 settlement") = Some (ordinal 2024 5 2) /\
  is_eligible bank_A
    (mkAppRow (Some (ordinal 2024 5 2)) (Some (of_decimal 10005 100))
       "invoice 4521 settlement") = true /\
  inner_body sim_tie 0 bank_A 0
    (mkAppRow (Some (ordinal 2024 5 2)) (Some (of_decimal 10005 100))
       "invoice 4521 settlement") (zero, -1) = inr (half, 0).
Proof.
pose proof (eligibility_is_amount_and_date_tolerance sim_tie 0 0 bank_A
  (mkAppRow (Some (ordinal 2024 5 2)) (Some (of_decimal 10005 100))
     "invoice 4521 settlement") (zero, -1) half
  (ordinal 2024 5 1) (ordinal 2024 5 2)
  (of_decimal 10000 100) (of_decimal 10005 100)
  eq_refl eq_refl eq_refl eq_refl eq_refl eq_refl eq_refl eq_refl)
  as (H1 & _ & H3 & _).
assert (Htol : le (fabs (sub (of_decimal 10000 100) (of_decimal 10005 100)))
                 tenth = true /\
               Z.abs (ordinal 2024 5 1 - ordinal 2024 5 2) <= 1).
{ split; [vm_compute; reflexivity | vm_compute; discriminate]. }
split; [reflexivity|]. split; [reflexivity|].
split; [apply H3, Htol | apply H1, Htol].
Defined.

(** The tolerance is checked on the binary64 difference: 100.10 against
    100.00 passes, 50.20 against 50.00 (scenario B) fails, and so does 50.10
    against 50.00, whose computed difference is just above the binary64
    value of 0.1. *)
Example amount_boundary_in_binary64 :
  amount_match (of_decimal 10010 100) (of_decimal 10000 100) = true /\
  amount_match (of_decimal 5020 100) (of_decimal 5000 100) = false /\
  amount_match (of_decimal 5010 100) (of_decimal 5000 100) = false /\
  of_decimal 1 10 = tenth.
Proof. repeat split; vm_compute; reflexivity. Qed.

(** ** Lines of the result *)

Lemma result_at_inv (c : Columns) (i : nat) (r : MatchResult) :
  result_at c i = Some r ->
  nth_error (matched_index c) i = Some (r_matched_index r) /\
  nth_error (sim_scores c) i = Some (r_similarity_score r) /\
  nth_error (matched_amount c) i = Some (r_matched_amount r) /\
  nth_error (matched_date c) i = Some (r_matched_date r) /\
  nth_error (matched_narration c) i = Some (r_matched_narration r).
Proof.
unfold result_at.
destruct (nth_error (matched_index c) i), (nth_error (sim_scores c) i),
  (nth_error (matched_amount c) i), (nth_error (matched_date c) i),
  (nth_error (matched_narration c) i); try discriminate.
intros [= <-]. simpl. auto.
Qed.

Lemma match_row_null (sim_matrix : list (list float)) (app : list AppRow)
    (i : nat) (row : MtRow) :
  isnull_date (date row) = true \/ isnull_amount (amount row) = true ->
  match_row sim_matrix app i row = inr unmatched.
Proof.
intros H. unfold match_row. rewrite inner_loop_null; [reflexivity|].
destruct H as [-> | ->]; [reflexivity | apply orb_true_r].
Qed.

(** C3: a bank row without a date or without an amount gets the unmatched
    line (no index, score 0, no copied amount, date or narration) whatever
    its narration and whatever the similarity matrix holds; and a ledger row
    without a date or without an amount is eligible for no bank row and is
    never the index a bank row is matched to. *)
Theorem null_fields_are_never_matched :
  forall (tfidf_cosine : Vectorizer -> list nat -> list nat -> float)
         (st st' : Store) (frame : MtFrame) (cols : Columns)
         (i : nat) (row : MtRow),
  reconcile tfidf_cosine st = (inr frame, st') ->
  mt_columns frame = Some cols ->
  nth_error (mt_rows (mt_df st)) i = Some row ->
  (isnull_date (date row) = true \/ isnull_amount (amount row) = true ->
   result_at cols i = Some unmatched /\
   forall n sim_matrix app,
     match_row sim_matrix app i (set_narration n row) = inr unmatched) /\
  (forall j e, nth_error (app_df st) j = Some e ->
     isnull_date (app_date e) = true \/ isnull_amount (app_amount e) = true ->
     is_eligible row e = false /\
     nth_error (matched_index cols) i <> Some (Some (Z.of_nat j))).
Proof.
intros tfidf_cosine st st' frame cols i row Hrec Hcols Hrow.
destruct (reconcile_lines _ _ _ _ Hrec)
  as (v & cols' & _ & -> & _ & _ & Hlines).
simpl in Hcols. injection Hcols as ->.
destruct (Hlines i row Hrow) as (r & srow & Hat & _ & _ & Hm & Hsel).
split.
- intros Hnull. split.
  + rewrite (match_row_null _ _ _ (lower_row row)) in Hm by exact Hnull.
    congruence.
  + intros n sim_matrix app. apply match_row_null. exact Hnull.
- intros j e He Hnull.
  assert (Hne : is_eligible row e = false).
  { destruct (is_eligible row e) eqn:El; [|reflexivity].
    destruct (is_eligible_not_null _ _ El) as (_ & H1 & _ & H2).
    destruct Hnull; congruence. }
  split; [exact Hne|].
  destruct (result_at_inv _ _ _ Hat) as (Hidx & _). rewrite Hidx.
  destruct Hsel as [[-> _] | (j' & e' & s & -> & He' & _ & El & _)].
  + discriminate.
  + simpl. intros [= Hj]. apply Nat2Z.inj in Hj. subst j'. congruence.
Qed.

Lemma null_fields_are_never_matched_witness :
  reconcile count_cosine (mkStore (mkMtFrame [bank_null] None) ledger_A) =
  (inr (mkMtFrame [bank_null]
          (Some (mkColumns [None] [zero] [None] [None] [None]))),
   mkStore (mkMtFrame [bank_null]
              (Some (mkColumns [None] [zero] [None] [None] [None])))
     ledger_A) /\
  result_at (mkColumns [None] [zero] [None] [None] [None]) 0 = Some unmatched.
Proof.
assert (H : reconcile count_cosine
              (mkStore (mkMtFrame [bank_null] None) ledger_A) =
            (inr (mkMtFrame [bank_null]
                    (Some (mkColumns [None] [zero] [None] [None] [None]))),
             mkStore (mkMtFrame [bank_null]
                        (Some (mkColumns [None] [zero] [None] [None] [None])))
               ledger_A)).
{ vm_compute. reflexivity. }
split; [exact H|].
apply (null_fields_are_never_matched count_cosine _ _ _ _ 0%nat bank_null H
         eq_refl eq_refl).
left. reflexivity.
Defined.

(** ** Order and length of the result *)

(** C4: when [reconcile] returns, the frame it returns has as many rows as
    the bank frame it was given, each of the five result columns has that
    same length, row [i] of the result is bank row [i] (its narration
    lower-cased), and line [i] of the result columns is the line the Matcher
    computes for bank row [i] on row [i] of the similarity matrix; there is
    no line past the last bank row. *)
Theorem one_result_per_bank_record_in_order :
  forall (tfidf_cosine : Vectorizer -> list nat -> list nat -> float)
         (st st' : Store) (frame : MtFrame),
  reconcile tfidf_cosine st = (inr frame, st') ->
  exists v cols,
    fit (corpus st) = inr v /\
    mt_columns frame = Some cols /\
    List.length (mt_rows frame) = List.length (mt_rows (mt_df st)) /\
    List.length (matched_index cols) = List.length (mt_rows (mt_df st)) /\
    List.length (sim_scores cols) = List.length (mt_rows (mt_df st)) /\
    List.length (matched_amount cols) = List.length (mt_rows (mt_df st)) /\
    List.length (matched_date cols) = List.length (mt_rows (mt_df st)) /\
    List.length (matched_narration cols) = List.length (mt_rows (mt_df st)) /\
    (forall i row, nth_error (mt_rows (mt_df st)) i = Some row ->
       nth_error (mt_rows frame) i = Some (lower_row row) /\
       exists r,
         result_at cols i = Some r /\
         match_row (scores tfidf_cosine v (map narration (lowered st))
                      (map app_narration (app_df st)))
           (app_df st) i (lower_row row) = inr r) /\
    (forall i, (List.length (mt_rows (mt_df st)) <= i)%nat ->
       result_at cols i = None).
Proof.
intros tfidf_cosine st st' frame Hrec.
destruct (reconcile_lines _ _ _ _ Hrec)
  as (v & cols & Hfit & -> & _ & (L1 & L2 & L3 & L4 & L5) & Hlines).
exists v, cols. simpl.
split; [exact Hfit|]. split; [reflexivity|].
split; [unfold lowered; apply length_map|].
split; [exact L1|]. split; [exact L2|]. split; [exact L3|].
split; [exact L4|]. split; [exact L5|]. split.
- intros i row Hrow. split; [apply nth_error_lowered; exact Hrow|].
  destruct (Hlines i row Hrow) as (r & srow & Hat & _ & _ & Hm & _).
  exists r. auto.
- intros i Hi. unfold result_at.
  replace (nth_error (matched_index cols) i) with (@None (option Z));
    [reflexivity|].
  symmetry. apply nth_error_None. lia.
Qed.

Lemma one_result_per_bank_record_in_order_witness :
  reconcile count_cosine store_A = (inr frame_A, mkStore frame_A ledger_A) /\
  exists v cols,
    fit (corpus store_A) = inr v /\
    mt_columns frame_A = Some cols /\
    List.length (mt_rows frame_A) = List.length (mt_rows (mt_df store_A)) /\
    List.length (matched_index cols) = List.length (mt_rows (mt_df store_A)) /\
    List.length (sim_scores cols) = List.length (mt_rows (mt_df store_A)) /\
    List.length (matched_amount cols) = List.length (mt_rows (mt_df store_A)) /\
    List.length (matched_date cols) = List.length (mt_rows (mt_df store_A)) /\
    List.length (matched_narration cols) =
    List.length (mt_rows (mt_df store_A)) /\
    (forall i row, nth_error (mt_rows (mt_df store_A)) i = Some row ->
       nth_error (mt_rows frame_A) i = Some (lower_row row) /\
       exists r,
         result_at cols i = Some r /\
         match_row (scores count_cosine v (map narration (lowered store_A))
                      (map app_narration (app_df store_A)))
           (app_df store_A) i (lower_row row) = inr r) /\
    (forall i, (List.length (mt_rows (mt_df store_A)) <= i)%nat ->
       result_at cols i = None).
Proof.
assert (H : reconcile count_cosine store_A =
            (inr frame_A, mkStore frame_A ledger_A)).
{ vm_compute. reflexivity. }
split; [exact H|].
exact (one_result_per_bank_record_in_order count_cosine store_A _ frame_A H).
Defined.

(** ** What a match guarantees *)

(** C10: when the result of [reconcile] gives bank row [i] the index [j],
    then [j] is a position of the ledger; ledger row [j] has a date and an
    amount, as has bank row [i], and the pair is within both tolerances; the
    score stored for [i] is the cell [(i, j)] of the similarity matrix and is
    strictly above 0; and the stored amount, date and narration are those of
    ledger row [j]. *)
Theorem matched_line_is_an_eligible_ledger_row :
  forall (tfidf_cosine : Vectorizer -> list nat -> list nat -> float)
         (st st' : Store) (frame : MtFrame) (cols : Columns)
         (i : nat) (j : Z),
  reconcile tfidf_cosine st = (inr frame, st') ->
  mt_columns frame = Some cols ->
  nth_error (matched_index cols) i = Some (Some j) ->
  exists v row e d d' a a' score,
    fit (corpus st) = inr v /\
    nth_error (mt_rows (mt_df st)) i = Some row /\
    0 <= j < Z.of_nat (List.length (app_df st)) /\
    nth_error (app_df st) (Z.to_nat j) = Some e /\
    date row = Some d /\ app_date e = Some d' /\
    amount row = Some a /\ app_amount e = Some a' /\
    isnan a = false /\ isnan a' = false /\
    le (fabs (sub a a')) tenth = true /\ Z.abs (d - d') <= 1 /\
    matrix_get (scores tfidf_cosine v (map narration (lowered st))
                  (map app_narration (app_df st))) i (Z.to_nat j)
    = inr score /\
    score = tfidf_cosine v
              (count_row (vocabulary_ v) (lower (narration row)))
              (count_row (vocabulary_ v) (app_narration e)) /\
    nth_error (sim_scores cols) i = Some score /\
    gt score zero = true /\
    nth_error (matched_amount cols) i = Some (Some a') /\
    nth_error (matched_date cols) i = Some (Some d') /\
    nth_error (matched_narration cols) i = Some (Some (app_narration e)).
Proof.
intros tfidf_cosine st st' frame cols i j Hrec Hcols Hidx.
destruct (reconcile_lines _ _ _ _ Hrec)
  as (v & cols' & Hfit & -> & _ & (L1 & _) & Hlines).
simpl in Hcols. injection Hcols as ->.
destruct (nth_error (mt_rows (mt_df st)) i) as [row|] eqn:Hrow.
2:{ apply nth_error_None in Hrow.
    assert (i < List.length (matched_index cols))%nat
      by (apply nth_error_Some; congruence). lia. }
destruct (Hlines i row Hrow) as (r & srow & Hat & Hs & Hsrow & _ & Hsel).
destruct (result_at_inv _ _ _ Hat) as (R1 & R2 & R3 & R4 & R5).
rewrite R1 in Hidx. injection Hidx as Hidx.
destruct Hsel as [[-> _] | (j' & e & s & -> & He & Hsj & El & Hpos & _)];
  [discriminate|].
simpl in *. injection Hidx as <-.
pose proof (is_eligible_not_null _ _ El) as (N1 & N2 & N3 & N4).
unfold is_eligible in El. unfold isnull_date, isnull_amount in *.
destruct (date row) as [d|] eqn:Hd; [|discriminate].
destruct (app_date e) as [d'|] eqn:Hd'; [|discriminate].
destruct (amount row) as [a|] eqn:Ha; [|discriminate].
destruct (app_amount e) as [a'|] eqn:Ha'; [|discriminate].
apply andb_prop in El as [Ea Ed]. apply Z.leb_le in Ed.
exists v, row, e, d, d', a, a', s. rewrite Nat2Z.id.
assert (Hj : (j' < List.length (app_df st))%nat)
  by (apply nth_error_Some; congruence).
repeat (split; [solve [auto | lia]|]).
split.
{ unfold matrix_get. rewrite Hs, Hsj. reflexivity. }
split.
{ rewrite Hsrow, nth_error_map, He in Hsj. simpl in Hsj. congruence. }
auto.
Qed.

Lemma matched_line_is_an_eligible_ledger_row_witness :
  reconcile count_cosine store_A = (inr frame_A, mkStore frame_A ledger_A) /\
  nth_error [Some 0] 0 = Some (Some 0) /\
  exists e score,
    nth_error (app_df store_A) (Z.to_nat 0) = Some e /\
    nth_error [S754_finite false 6004799503160662 (-53)] 0 = Some score /\
    gt score zero = true /\
    app_narration e = "invoice 4521 settlement"%string.
Proof.
assert (H : reconcile count_cosine store_A =
            (inr frame_A, mkStore frame_A ledger_A)).
{ vm_compute. reflexivity. }
split; [exact H|]. split; [reflexivity|].
destruct (matched_line_is_an_eligible_ledger_row count_cosine store_A _
            frame_A _ 0%nat 0 H eq_refl eq_refl)
  as (v & row & e & d & d' & a & a' & score & _ & _ & _ & He & _ & _ & _ & _
      & _ & _ & _ & _ & _ & _ & Hsc & Hpos & _ & _ & Hn).
exists e, score. split; [exact He|]. split; [exact Hsc|].
split; [exact Hpos|]. simpl in Hn. congruence.
Defined.

(** ** When [reconcile] returns *)

Lemma fit_returns_iff (docs : list string) :
  (exists v, fit docs = inr v) <->
  (exists doc, In doc docs /\ tokenize doc <> []).
Proof.
unfold fit.
destruct (nodup string_dec (List.concat (map tokenize docs))) as [|t l] eqn:Hv.
- split; [intros [v H]; discriminate|].
  intros (doc & Hin & Htok). exfalso.
  destruct (tokenize doc) as [|t toks] eqn:Hd; [congruence|].
  assert (Ht : In t (nodup string_dec (List.concat (map tokenize docs)))).
  { apply nodup_In, in_concat. exists (tokenize doc).
    split; [apply in_map; exact Hin | rewrite Hd; left; reflexivity]. }
  rewrite Hv in Ht. exact Ht.
- split; [|eauto]. intros _.
  assert (Ht : In t (nodup string_dec (List.concat (map tokenize docs))))
    by (rewrite Hv; left; reflexivity).
  apply nodup_In, in_concat in Ht as (toks & Hin & Ht).
  apply in_map_iff in Hin as (doc & <- & Hin).
  exists doc. split; [exact Hin|]. intros E. rewrite E in Ht. exact Ht.
Qed.

(** C5, amended: [reconcile] returns exactly when there is at least one bank
    row, at least one ledger row and at least one narration, on either side,
    holding a token; null dates and amounts never make it raise, and the two
    loops never raise.  Otherwise the scikit-learn calls of lines 55-59
    raise [ValueError], and the store is left with the narrations
    lower-cased. *)
Theorem reconcile_returns_iff_inputs_nonempty :
  forall (tfidf_cosine : Vectorizer -> list nat -> list nat -> float)
         (st : Store),
  ((exists frame st', reconcile tfidf_cosine st = (inr frame, st')) <->
   (mt_rows (mt_df st) <> [] /\ app_df st <> [] /\
    exists doc, In doc (corpus st) /\ tokenize doc <> [])) /\
  (forall e st', reconcile tfidf_cosine st = (inl e, st') ->
     (exists msg, e = ValueError msg) /\ st' = after_lower st).
Proof.
intros tfidf_cosine st. split; [split|].
- intros (frame & st' & H).
  destruct (reconcile_inr _ _ _ _ H) as (v & cols & Hfit & Hmt & Happ & _).
  repeat split; auto. apply fit_returns_iff. eauto.
- intros (Hmt & Happ & Hdoc). apply fit_returns_iff in Hdoc as [v Hfit].
  destruct (reconcile_returns tfidf_cosine st v Hfit Hmt Happ) as [cols H].
  eauto.
- intros e st'. rewrite reconcile_unfold. unfold fit.
  destruct (nodup string_dec (List.concat (map tokenize (corpus st)))) as [|t l].
  { intros [= <- <-]. eauto. }
  destruct (loops_return tfidf_cosine
              (mkVectorizer (t :: l) (List.length (corpus st))
                 (map (document_frequency (map tokenize (corpus st))) (t :: l)))
              (lowered st) (app_df st)) as [cols Hc].
  rewrite Hc.
  destruct (lowered st); [intros [= <- <-]; eauto|].
  destruct (app_df st); [intros [= <- <-]; eauto|]. discriminate.
Qed.

(** With no bank row, with no ledger row, and with no token in any
    narration, [reconcile] raises. *)
Lemma reconcile_raises_on_empty_input :
  fst (reconcile count_cosine (mkStore (mkMtFrame [] None) ledger_A)) =
    inl (ValueError "Found array with 0 sample(s)") /\
  fst (reconcile count_cosine (mkStore (mkMtFrame [bank_A] None) [])) =
    inl (ValueError "Found array with 0 sample(s)") /\
  fst (reconcile count_cosine empty_store) =
    inl (ValueError
           "empty vocabulary; perhaps the documents only contain stop words") /\
  ~ (forall st, exists frame st',
       reconcile count_cosine st = (inr frame, st')).
Proof.
split; [vm_compute; reflexivity|]. split; [vm_compute; reflexivity|].
split; [vm_compute; reflexivity|].
intros H. destruct (H empty_store) as (frame & st' & Hr).
vm_compute in Hr. discriminate Hr.
Qed.

(** ** What [reconcile] writes *)

Lemma reconcile_store (tfidf_cosine : Vectorizer -> list nat -> list nat -> float)
    (st : Store) :
  (exists e, reconcile tfidf_cosine st = (inl e, after_lower st)) \/
  (exists cols, reconcile tfidf_cosine st =
                (inr (mkMtFrame (lowered st) (Some cols)),
                 after_return st cols)).
Proof.
rewrite reconcile_unfold.
destruct (fit (corpus st)); [left; eauto|].
destruct (lowered st); [left; eauto|].
destruct (app_df st); [left; eauto|].
destruct (outer_loop _ _ _ _ _); [left|right]; eauto.
Qed.

(** C6, amended: [reconcile] leaves the ledger frame as it was, and in the
    bank frame it leaves the columns reference, account, date, currency and
    amount as they were; it overwrites the bank narrations with their
    lower-cased form, in place, and when it returns it has set the five
    result columns on that same frame, which is the frame it returns.  When
    it raises, the result columns of the bank frame are as they were. *)
Theorem reconcile_writes_only_narration_and_result_columns :
  forall (tfidf_cosine : Vectorizer -> list nat -> list nat -> float)
         (st : Store),
  app_df (snd (reconcile tfidf_cosine st)) = app_df st /\
  map reference (mt_rows (mt_df (snd (reconcile tfidf_cosine st)))) =
    map reference (mt_rows (mt_df st)) /\
  map account (mt_rows (mt_df (snd (reconcile tfidf_cosine st)))) =
    map account (mt_rows (mt_df st)) /\
  map date (mt_rows (mt_df (snd (reconcile tfidf_cosine st)))) =
    map date (mt_rows (mt_df st)) /\
  map currency (mt_rows (mt_df (snd (reconcile tfidf_cosine st)))) =
    map currency (mt_rows (mt_df st)) /\
  map amount (mt_rows (mt_df (snd (reconcile tfidf_cosine st)))) =
    map amount (mt_rows (mt_df st)) /\
  map narration (mt_rows (mt_df (snd (reconcile tfidf_cosine st)))) =
    map (fun r => lower (narration r)) (mt_rows (mt_df st)) /\
  (forall frame, fst (reconcile tfidf_cosine st) = inr frame ->
     frame = mt_df (snd (reconcile tfidf_cosine st)) /\
     exists cols, mt_columns frame = Some cols) /\
  (forall e, fst (reconcile tfidf_cosine st) = inl e ->
     mt_columns (mt_df (snd (reconcile tfidf_cosine st))) =
     mt_columns (mt_df st)).
Proof.
intros tfidf_cosine st.
assert (Hrows : mt_rows (mt_df (snd (reconcile tfidf_cosine st))) = lowered st).
{ destruct (reconcile_store tfidf_cosine st) as [[e ->] | [cols ->]];
    reflexivity. }
rewrite Hrows. unfold lowered. rewrite !map_map. simpl.
repeat (split; [solve [reflexivity
                      | destruct (reconcile_store tfidf_cosine st)
                          as [[e ->] | [cols ->]]; reflexivity]|]).
split.
- intros frame.
  destruct (reconcile_store tfidf_cosine st) as [[e ->] | [cols ->]]; simpl.
  + discriminate.
  + intros [= <-]. split; [reflexivity|]. exists cols. reflexivity.
- intros e.
  destruct (reconcile_store tfidf_cosine st) as [[e' ->] | [cols ->]]; simpl.
  + reflexivity.
  + discriminate.
Qed.

(** The bank frame handed to [reconcile] is not the frame it leaves: the
    narration is lower-cased and five columns are added. *)
Lemma reconcile_mutates_bank_frame :
  mt_df store_A =
    mkMtFrame [mkMtRow "REF1" "ACC1" (Some 739007) (Some "EUR"%string)
                 (Some (of_decimal 10000 100)) "Invoice 4521 payment"] None /\
  mt_df (snd (reconcile count_cosine store_A)) = frame_A /\
  map narration (mt_rows frame_A) = ["invoice 4521 payment"%string] /\
  snd (reconcile count_cosine store_A) <> store_A.
Proof.
split; [vm_compute; reflexivity|]. split; [vm_compute; reflexivity|].
split; [reflexivity|].
intros H. vm_compute in H. discriminate H.
Qed.

(** ** Determinism *)

Lemma lower_ascii_idempotent (c : ascii) :
  lower_ascii (lower_ascii c) = lower_ascii c.
Proof. destruct c as [[] [] [] [] [] [] [] []]; reflexivity. Qed.

Lemma lower_idempotent (s : string) : lower (lower s) = lower s.
Proof.
induction s as [|c s IH]; simpl; [reflexivity|].
rewrite lower_ascii_idempotent, IH. reflexivity.
Qed.

Lemma lower_row_idempotent (r : MtRow) : lower_row (lower_row r) = lower_row r.
Proof. unfold lower_row. simpl. rewrite lower_idempotent. reflexivity. Qed.

Lemma reconcile_fst_ext
    (tfidf_cosine : Vectorizer -> list nat -> list nat -> float)
    (st1 st2 : Store) :
  lowered st1 = lowered st2 -> app_df st1 = app_df st2 ->
  fst (reconcile tfidf_cosine st1) = fst (reconcile tfidf_cosine st2).
Proof.
intros Hl Ha. rewrite !reconcile_unfold. unfold corpus.
rewrite Hl, Ha.
destruct (fit _); [reflexivity|].
destruct (lowered st2); [reflexivity|].
destruct (app_df st2); [reflexivity|].
destruct (outer_loop _ _ _ _ _); reflexivity.
Qed.

(** C9: the outcome of [reconcile] (the exception, or the returned frame
    with its five result columns) is a function of the bank rows and the
    ledger rows alone: two stores with the same bank rows and the same ledger
    rows give the same outcome, whatever result columns the bank frame
    already carried, and running [reconcile] again on the store a first run
    has left gives the same outcome as the first run. *)
Theorem reconcile_is_deterministic :
  forall (tfidf_cosine : Vectorizer -> list nat -> list nat -> float)
         (st1 st2 : Store),
  mt_rows (mt_df st1) = mt_rows (mt_df st2) ->
  app_df st1 = app_df st2 ->
  fst (reconcile tfidf_cosine st1) = fst (reconcile tfidf_cosine st2) /\
  fst (reconcile tfidf_cosine (snd (reconcile tfidf_cosine st1))) =
  fst (reconcile tfidf_cosine st2).
Proof.
intros tfidf_cosine st1 st2 Hmt Happ.
assert (H12 : fst (reconcile tfidf_cosine st1) =
              fst (reconcile tfidf_cosine st2)).
{ apply reconcile_fst_ext; [unfold lowered; rewrite Hmt; reflexivity|exact Happ]. }
split; [exact H12|]. rewrite <- H12.
apply reconcile_fst_ext.
- destruct (reconcile_store tfidf_cosine st1) as [[e ->] | [cols ->]];
    simpl snd; unfold after_lower, after_return, lowered; simpl;
    rewrite map_map; apply map_ext; intros r; apply lower_row_idempotent.
- destruct (reconcile_store tfidf_cosine st1) as [[e ->] | [cols ->]];
    reflexivity.
Qed.

Lemma reconcile_is_deterministic_witness :
  mt_rows (mt_df store_A) = mt_rows (mt_df (mkStore (mkMtFrame [bank_A]
                                   (Some empty_columns)) ledger_A)) /\
  app_df store_A = ledger_A /\
  fst (reconcile count_cosine
         (mkStore (mkMtFrame [bank_A] (Some empty_columns)) ledger_A)) =
    inr frame_A /\
  fst (reconcile count_cosine (snd (reconcile count_cosine store_A))) =
    inr frame_A.
Proof.
destruct (reconcile_is_deterministic count_cosine store_A
            (mkStore (mkMtFrame [bank_A] (Some empty_columns)) ledger_A)
            eq_refl eq_refl) as [H1 H2].
assert (H : fst (reconcile count_cosine store_A) = inr frame_A).
{ vm_compute. reflexivity. }
split; [reflexivity|]. split; [reflexivity|].
split; [rewrite <- H1; exact H | rewrite H2, <- H1; exact H].
Defined.

(** ** The Similarity Scorer *)

Section ScorerFacts.

Import Scorer.
Local Open Scope R_scope.

Lemma dot_self_nonneg (u : list R) : 0 <= dot u u.
Proof. induction u as [|x u IH]; simpl; [lra | nra]. Qed.

Lemma dot_nonneg (u : list R) :
  forall w, Forall (fun x => 0 <= x) u -> Forall (fun x => 0 <= x) w ->
  0 <= dot u w.
Proof.
induction u as [|x u IH]; intros [|y w] Hu Hw; simpl; try lra.
inversion Hu; inversion Hw; subst.
specialize (IH w ltac:(assumption) ltac:(assumption)). nra.
Qed.

(** Cauchy-Schwarz on the common prefix of two lists. *)
Lemma dot_cauchy_schwarz (u : list R) :
  forall w, dot u w * dot u w <= dot u u * dot w w.
Proof.
induction u as [|x u IH]; intros [|y w]; simpl; try lra.
specialize (IH w).
pose proof (dot_self_nonneg u) as HU. pose proof (dot_self_nonneg w) as HW.
set (d := dot u w) in *. set (U := dot u u) in *. set (W := dot w w) in *.
assert (Hmix : 2 * (x * y * d) <= x * x * W + y * y * U).
{ destruct (Req_dec W 0) as [HW0 | HW0].
  - assert (Hd : d * d <= 0) by (rewrite HW0, Rmult_0_r in IH; exact IH).
    assert (d = 0) by nra. rewrite H, HW0. pose proof (Rle_0_sqr y).
    unfold Rsqr in *. nra.
  - assert (0 < W) by lra.
    apply Rmult_le_reg_r with W; [assumption|].
    pose proof (Rle_0_sqr (x * W - y * d)) as Hsq. unfold Rsqr in Hsq.
    assert (0 <= y * y * (U * W - d * d))
      by (apply Rmult_le_pos; [apply Rle_0_sqr | lra]).
    nra. }
nra.
Qed.

Lemma dot_scale (h k : R) (u : list R) :
  forall w, h <> 0 -> k <> 0 ->
  dot (map (fun x => x / h) u) (map (fun y => y / k) w) = dot u w / (h * k).
Proof.
induction u as [|x u IH]; intros [|y w] Hh Hk; simpl;
  try (field; split; assumption).
rewrite IH by assumption. field. split; assumption.
Qed.

Lemma norm_nonneg (u : list R) : 0 <= norm u.
Proof. apply sqrt_pos. Qed.

Lemma handle_zero_pos (u : list R) : 0 < handle_zero (norm u).
Proof.
unfold handle_zero. destruct (Req_dec_T (norm u) 0) as [E|N]; [lra|].
pose proof (norm_nonneg u). lra.
Qed.

Lemma normalize_self (u : list R) : dot (normalize u) (normalize u) <= 1.
Proof.
unfold normalize. pose proof (handle_zero_pos u) as Hpos.
rewrite dot_scale by lra.
unfold handle_zero in *. destruct (Req_dec_T (norm u) 0) as [E|N].
- apply sqrt_eq_0 in E; [|apply dot_self_nonneg]. rewrite E. lra.
- unfold norm in *. rewrite sqrt_sqrt by apply dot_self_nonneg.
  assert (dot u u <> 0) by (intros E; rewrite E, sqrt_0 in N; lra).
  right. field. assumption.
Qed.

Lemma normalize_nonneg (u : list R) :
  Forall (fun x => 0 <= x) u -> Forall (fun x => 0 <= x) (normalize u).
Proof.
intros H. unfold normalize. apply Forall_map.
eapply Forall_impl; [|exact H]. intros x Hx. simpl.
pose proof (handle_zero_pos u).
apply Rmult_le_pos; [assumption|]. left. apply Rinv_0_lt_compat. assumption.
Qed.

Lemma cosine_range (u w : list R) :
  Forall (fun x => 0 <= x) u -> Forall (fun x => 0 <= x) w ->
  0 <= cosine u w <= 1.
Proof.
intros Hu Hw. unfold cosine. split.
- apply dot_nonneg; apply normalize_nonneg; assumption.
- pose proof (dot_cauchy_schwarz (normalize u) (normalize w)) as Hcs.
  pose proof (normalize_self u) as H1. pose proof (normalize_self w) as H2.
  pose proof (dot_self_nonneg (normalize u)) as H3.
  pose proof (dot_self_nonneg (normalize w)) as H4.
  set (c := dot (normalize u) (normalize w)) in *.
  destruct (Rle_dec c 1) as [Hc|Hc]; [assumption|]. nra.
Qed.

Lemma dot_zero_l (u : list R) :
  forall w, is_zero_vector u -> dot u w = 0.
Proof.
induction u as [|x u IH]; intros [|y w] H; simpl; try reflexivity.
inversion H; subst. rewrite IH by assumption. lra.
Qed.

Lemma dot_zero_r (w : list R) :
  forall u, is_zero_vector w -> dot u w = 0.
Proof.
induction w as [|y w IH]; intros [|x u] H; simpl; try reflexivity.
inversion H; subst. rewrite IH by assumption. lra.
Qed.

Lemma normalize_zero (u : list R) :
  is_zero_vector u -> is_zero_vector (normalize u).
Proof.
intros H. unfold normalize, is_zero_vector. apply Forall_map.
eapply Forall_impl; [|exact H]. intros x ->. simpl. unfold Rdiv. lra.
Qed.

Lemma cosine_zero (u w : list R) :
  is_zero_vector u \/ is_zero_vector w -> cosine u w = 0.
Proof.
unfold cosine. intros [H | H].
- apply dot_zero_l, normalize_zero, H.
- apply dot_zero_r, normalize_zero, H.
Qed.

Lemma ln_nonneg (x : R) : 1 <= x -> 0 <= ln x.
Proof.
intros [H | <-]; [|rewrite ln_1; lra].
left. rewrite <- ln_1. apply ln_increasing; lra.
Qed.

Lemma idf_pos (n df : nat) : (df <= n)%nat -> 0 < idf n df.
Proof.
intros H. unfold idf. apply le_INR in H.
pose proof (pos_INR df) as Hdf.
assert (1 <= (1 + INR n) / (1 + INR df)).
{ apply Rmult_le_reg_r with (1 + INR df); [lra|].
  unfold Rdiv. rewrite Rmult_assoc, Rinv_l by lra. lra. }
pose proof (ln_nonneg _ H0). lra.
Qed.

Lemma weights_nonneg (v : Vectorizer) (row : list nat) :
  Forall (fun df => (df <= n_docs v)%nat) (doc_freq v) ->
  Forall (fun x => 0 <= x) (weights v row).
Proof.
intros H. unfold weights. apply Forall_map.
rewrite Forall_forall in *. intros [c df] Hin. simpl.
apply in_combine_r in Hin. apply H in Hin.
apply Rmult_le_pos; [apply pos_INR | left; apply idf_pos; exact Hin].
Qed.

Lemma weights_zero (v : Vectorizer) (row : list nat) :
  Forall (fun c => c = 0%nat) row -> is_zero_vector (weights v row).
Proof.
intros H. unfold weights, is_zero_vector. apply Forall_map.
rewrite Forall_forall in *. intros [c df] Hin. simpl.
apply in_combine_l in Hin. rewrite (H _ Hin). simpl. lra.
Qed.

End ScorerFacts.

Lemma fit_fields (docs : list string) (v : Vectorizer) :
  fit docs = inr v ->
  vocabulary_ v = nodup string_dec (List.concat (map tokenize docs)) /\
  n_docs v = List.length docs /\
  Forall (fun df => (df <= n_docs v)%nat) (doc_freq v).
Proof.
unfold fit.
destruct (nodup string_dec (List.concat (map tokenize docs))) as [|t l];
  [discriminate|].
intros [= <-]. simpl. repeat split.
assert (Hdf : forall t', (document_frequency (map tokenize docs) t'
                          <= List.length docs)%nat).
{ intros t'. unfold document_frequency.
  rewrite <- (length_map tokenize docs). apply filter_length_le. }
constructor; [apply Hdf|]. apply Forall_map, Forall_forall. intros; apply Hdf.
Qed.

Lemma count_row_tokenless (vocab : list string) (doc : string) :
  tokenize doc = [] -> Forall (fun c => c = 0%nat) (count_row vocab doc).
Proof.
intros H. unfold count_row. rewrite H. apply Forall_map, Forall_forall.
reflexivity.
Qed.

Lemma transform_shape (v : Vectorizer) (docs : list string) (X : Matrix) :
  transform v docs = inr X ->
  fitted X = v /\
  counts X = map (count_row (vocabulary_ v)) docs /\
  Forall (fun x => List.length x = List.length (vocabulary_ v)) (counts X).
Proof.
unfold transform. destruct docs as [|d docs]; [discriminate|].
intros [= <-]. simpl. repeat split.
constructor; [unfold count_row; apply length_map|].
apply Forall_map, Forall_forall. intros doc _. unfold count_row.
apply length_map.
Qed.

(** The two transforms of one fitted vectorizer: shape of the count rows and
    of the similarity matrix, and range of the cells in exact arithmetic. *)
Lemma scorer_shape_and_exact_range :
  forall (tfidf_cosine : Vectorizer -> list nat -> list nat -> float)
         (bank ledger : list string) (v : Vectorizer),
  fit (bank ++ ledger) = inr v ->
  bank <> [] -> ledger <> [] ->
  exists X Y,
    transform v bank = inr X /\ transform v ledger = inr Y /\
    fitted X = v /\ fitted Y = v /\
    vocabulary_ v =
      nodup string_dec (List.concat (map tokenize (bank ++ ledger))) /\
    Forall (fun x => List.length x = List.length (vocabulary_ v))
      (counts X ++ counts Y) /\
    cosine_similarity tfidf_cosine X Y =
      inr (scores tfidf_cosine v bank ledger) /\
    List.length (scores tfidf_cosine v bank ledger) = List.length bank /\
    Forall (fun r => List.length r = List.length ledger)
      (scores tfidf_cosine v bank ledger) /\
    List.length (Scorer.similarity X Y) = List.length bank /\
    Forall (fun r => List.length r = List.length ledger /\
                     Forall (fun x => (0 <= x <= 1)%R) r)
      (Scorer.similarity X Y).
Proof.
intros tfidf_cosine bank ledger v Hfit Hb Hl.
destruct (fit_fields _ _ Hfit) as (Hvoc & _ & Hdf).
destruct (transform v bank) as [e|X] eqn:HX.
{ destruct bank; [congruence | discriminate]. }
destruct (transform v ledger) as [e|Y] eqn:HY.
{ destruct ledger; [congruence | discriminate]. }
destruct (transform_shape _ _ _ HX) as (FX & CX & SX).
destruct (transform_shape _ _ _ HY) as (FY & CY & SY).
exists X, Y.
split; [reflexivity|]. split; [reflexivity|].
split; [exact FX|]. split; [exact FY|]. split; [exact Hvoc|].
split; [apply Forall_app; split; assumption|].
split.
{ unfold cosine_similarity, scores. rewrite CX, CY, FX.
  destruct bank; [congruence|]. destruct ledger; [congruence|]. reflexivity. }
destruct (scores_shape tfidf_cosine v bank ledger) as [Hlen Hrows].
split; [exact Hlen|].
split.
{ apply Forall_forall. intros r Hr.
  apply In_nth_error in Hr as [i Hi]. eapply Hrows; eauto. }
unfold Scorer.similarity. rewrite CX, CY, FX, FY.
split; [rewrite !length_map; reflexivity|].
apply Forall_map, Forall_forall. intros x _.
split; [rewrite !length_map; reflexivity|].
apply Forall_map, Forall_forall. intros y _.
apply cosine_range; unfold Scorer.tfidf;
  apply normalize_nonneg, weights_nonneg, Hdf.
Qed.


(** C8, amended: a narration without a token (empty, or made of blanks,
    punctuation and single characters only) has the zero count row and the
    zero weight vector; the cosine similarity of any pair one side of which
    is a zero vector is 0; and the norm a vector is divided by is never 0,
    a zero norm being replaced by 1.  No stop-word list is configured, so
    nothing is said of narrations made of stop words. *)
Theorem tokenless_narration_scores_zero :
  forall (v : Vectorizer) (doc : string),
  tokenize doc = [] ->
  Forall (fun c => c = 0%nat) (count_row (vocabulary_ v) doc) /\
  Scorer.is_zero_vector (Scorer.tfidf v (count_row (vocabulary_ v) doc)) /\
  (forall row : list nat,
     Scorer.cosine (Scorer.tfidf v (count_row (vocabulary_ v) doc))
       (Scorer.tfidf v row) = 0%R /\
     Scorer.cosine (Scorer.tfidf v row)
       (Scorer.tfidf v (count_row (vocabulary_ v) doc)) = 0%R) /\
  (forall u w : list R,
     Scorer.is_zero_vector u \/ Scorer.is_zero_vector w ->
     Scorer.cosine u w = 0%R) /\
  (forall u : list R, Scorer.handle_zero (Scorer.norm u) <> 0%R).
Proof.
intros v doc Htok.
pose proof (count_row_tokenless (vocabulary_ v) doc Htok) as Hrow.
assert (Hz : Scorer.is_zero_vector
               (Scorer.tfidf v (count_row (vocabulary_ v) doc))).
{ unfold Scorer.tfidf. apply normalize_zero, weights_zero, Hrow. }
split; [exact Hrow|]. split; [exact Hz|]. split; [|split].
- intros row. split; apply cosine_zero; [left | right]; exact Hz.
- exact cosine_zero.
- intros u. pose proof (handle_zero_pos u). lra.
Qed.

Lemma tokenless_narration_scores_zero_witness :
  tokenize "a - B, 7 !" = [] /\
  Forall (fun c => c = 0%nat)
    (count_row ["payment"; "invoice"; "4521"]%string "a - B, 7 !") /\
  Scorer.is_zero_vector
    (Scorer.tfidf (mkVectorizer ["payment"; "invoice"; "4521"]%string 2
                     [1; 2; 2]%nat)
       (count_row ["payment"; "invoice"; "4521"]%string "a - B, 7 !")).
Proof.
destruct (tokenless_narration_scores_zero
            (mkVectorizer ["payment"; "invoice"; "4521"]%string 2 [1; 2; 2]%nat)
            "a - B, 7 !" eq_refl) as (H1 & H2 & _).
split; [reflexivity|]. split; [exact H1 | exact H2].
Defined.

(** The vectorizer is built without a stop-word list: a narration made of
    the stop word "the" alone keeps a token, a non-zero count row and a
    non-zero weight vector. *)
Lemma stop_word_narration_is_not_zero :
  tokenize "the" = ["the"%string] /\
  fit ["the"; "the"]%string = inr (mkVectorizer ["the"%string] 2 [2%nat]) /\
  count_row ["the"%string] "the" = [1%nat] /\
  ~ Scorer.is_zero_vector
      (Scorer.tfidf (mkVectorizer ["the"%string] 2 [2%nat])
         (count_row ["the"%string] "the")) /\
  ~ (forall (stop_words : list string) (v : Vectorizer) (doc : string),
       (forall t, In t (tokenize doc) -> In t stop_words) ->
       Scorer.is_zero_vector (Scorer.tfidf v (count_row (vocabulary_ v) doc))).
Proof.
assert (Hnz : ~ Scorer.is_zero_vector
                  (Scorer.tfidf (mkVectorizer ["the"%string] 2 [2%nat])
                     (count_row ["the"%string] "the"))).
{ replace (count_row ["the"%string] "the") with [1%nat]
    by (vm_compute; reflexivity).
  unfold Scorer.tfidf, Scorer.weights, Scorer.normalize. simpl.
  intros H. inversion H as [|x l Hx _]; subst.
  pose proof (handle_zero_pos [(1 * Scorer.idf 2 2)%R]) as Hpos.
  assert (Hidf : (0 < Scorer.idf 2 2)%R) by (apply idf_pos; lia).
  assert (Hq : (0 < 1 * Scorer.idf 2 2 /
                    Scorer.handle_zero (Scorer.norm [(1 * Scorer.idf 2 2)%R]))%R).
  { apply Rmult_lt_0_compat; [lra | apply Rinv_0_lt_compat; exact Hpos]. }
  lra. }
split; [vm_compute; reflexivity|]. split; [vm_compute; reflexivity|].
split; [vm_compute; reflexivity|]. split; [exact Hnz|].
intros H. apply Hnz.
apply (H ["the"%string] (mkVectorizer ["the"%string] 2 [2%nat]) "the"%string).
intros t Ht. exact Ht.
Qed.

(** * Further properties of the script *)

(** ** Cutting the file into messages (line 13) *)

Import Parser.

Lemma string_app_assoc (a b c : string) :
  ((a ++ b) ++ c)%string = (a ++ (b ++ c))%string.
Proof. induction a as [|x a IH]; simpl; [reflexivity | rewrite IH; reflexivity]. Qed.

Lemma string_app_nil_r (a : string) : (a ++ "")%string = a.
Proof. induction a as [|x a IH]; simpl; [reflexivity | rewrite IH; reflexivity]. Qed.

Lemma string_length_app (a b : string) :
  String.length (a ++ b) = (String.length a + String.length b)%nat.
Proof. induction a as [|x a IH]; simpl; [reflexivity | rewrite IH; reflexivity]. Qed.

Lemma split_from_head (s : string) :
  forall bol cur, exists x rest,
    split_from bol cur s = (cur ++ x)%string :: rest.
Proof.
induction s as [|c s IH]; intros bol cur.
- exists ""%string, []. simpl.
  replace (cur ++ "")%string with cur; [reflexivity|].
  clear. induction cur as [|x a IH]; simpl; [reflexivity | rewrite <- IH; reflexivity].
- cbn [split_from]. destruct (bol && prefix ":20:" (String c s)).
  + exists ""%string. eexists.
    replace (cur ++ "")%string with cur; [reflexivity|].
    clear. induction cur as [|x a IH]; simpl; [reflexivity | rewrite <- IH; reflexivity].
  + destruct (IH (Ascii.eqb c newline) (cur ++ String c "")%string)
      as (x & rest & ->).
    exists (String c x), rest. f_equal.
    clear. induction cur as [|y a IH]; simpl; [reflexivity | rewrite IH; reflexivity].
Qed.

Lemma split_from_concat (s : string) :
  forall bol cur, String.concat "" (split_from bol cur s) = (cur ++ s)%string.
Proof.
assert (Happ : forall a b c : string,
          ((a ++ b) ++ c)%string = (a ++ (b ++ c))%string).
{ induction a as [|x a IH]; intros; simpl; [reflexivity | rewrite IH; reflexivity]. }
assert (Hnil : forall a : string, (a ++ "")%string = a).
{ induction a as [|x a IH]; simpl; [reflexivity | rewrite IH; reflexivity]. }
induction s as [|c s IH]; intros bol cur.
- simpl. rewrite Hnil. reflexivity.
- cbn [split_from]. destruct (bol && prefix ":20:" (String c s)).
  + cbn [String.concat].
    destruct (split_from_head s (Ascii.eqb c newline) (String c ""))
      as (x & rest & E).
    pose proof (IH (Ascii.eqb c newline) (String c "")) as IH'.
    rewrite E in *. rewrite IH'. reflexivity.
  + rewrite IH, Happ. reflexivity.
Qed.

Lemma prefix_app (p x : string) : prefix p (p ++ x) = true.
Proof.
induction p as [|c p IH]; simpl; [destruct x; reflexivity|].
destruct (ascii_dec c c); [exact IH | congruence].
Qed.

Lemma prefix_tag_iff (x : string) :
  prefix ":20:" x = true <-> exists t, x = (":20:" ++ t)%string.
Proof.
split.
- destruct x as [|a [|b [|c [|d t]]]]; cbn [prefix]; try discriminate;
    repeat match goal with
    | |- context [ascii_dec ?u ?v] => destruct (ascii_dec u v); try discriminate
    end; subst; try discriminate.
  intros _. eexists. reflexivity.
- intros [t ->]. apply prefix_app.
Qed.

Lemma split_from_starts (s : string) :
  forall bol cur,
  prefix ":20:" (cur ++ s) = true -> cur <> ""%string ->
  ((String.length cur < 4)%nat -> bol = false) ->
  Forall (fun m => prefix ":20:" m = true) (split_from bol cur s).
Proof.
assert (Happ : forall a b c : string,
          ((a ++ b) ++ c)%string = (a ++ (b ++ c))%string).
{ induction a as [|x a IH]; intros; simpl; [reflexivity | rewrite IH; reflexivity]. }
induction s as [|c s IH]; intros bol cur Hp Hne Hbol.
- simpl. constructor; [|constructor].
  replace (cur ++ "")%string with cur in Hp; [exact Hp|].
  clear. induction cur as [|x a IH]; simpl; [reflexivity | rewrite <- IH; reflexivity].
- cbn [split_from]. destruct (bol && prefix ":20:" (String c s)) eqn:Hcut.
  + apply andb_prop in Hcut as [-> Hs]. constructor.
    * apply prefix_tag_iff in Hp as [t Ht].
      destruct cur as [|a [|b [|d [|e cur]]]]; try congruence;
        try (simpl in Hbol; specialize (Hbol ltac:(lia)); discriminate).
      simpl in Ht. injection Ht as -> -> -> -> _. apply (prefix_app ":20:").
    * apply IH; [exact Hs | discriminate |].
      intros _. apply prefix_tag_iff in Hs as [t Ht].
      injection Ht as -> _. reflexivity.
  + apply IH.
    * rewrite Happ. exact Hp.
    * destruct cur; discriminate.
    * intros Hlen. apply prefix_tag_iff in Hp as [t Ht].
      destruct cur as [|a [|b [|d cur]]]; try congruence; simpl in Ht.
      -- injection Ht as _ -> _. reflexivity.
      -- injection Ht as _ _ -> _. reflexivity.
      -- simpl in Hlen. rewrite string_length_app in Hlen. simpl in Hlen. lia.
Qed.

Lemma split_from_tail_starts (s : string) :
  forall bol cur,
  Forall (fun m => prefix ":20:" m = true) (tl (split_from bol cur s)).
Proof.
induction s as [|c s IH]; intros bol cur.
- constructor.
- cbn [split_from]. destruct (bol && prefix ":20:" (String c s)) eqn:Hcut.
  + apply andb_prop in Hcut as [_ Hs]. simpl tl.
    apply split_from_starts; [exact Hs | discriminate |].
    intros _. apply prefix_tag_iff in Hs as [t Ht].
    injection Ht as -> _. reflexivity.
  + apply IH.
Qed.

Lemma split_messages_blank_first (content : string) :
  prefix ":20:" content = true ->
  exists rest, split_messages content = ""%string :: rest.
Proof.
intros Hp. unfold split_messages. destruct content as [|c s]; [discriminate|].
cbn [split_from]. rewrite Hp. simpl. eauto.
Qed.

(** X1: the pieces line 13 cuts the file into, put end to end, are the file:
    no character is lost or added; there is always a first piece, and every
    later piece begins with [:20:]. *)
Theorem split_messages_partitions_the_text :
  forall content : string,
  String.concat "" (split_messages content) = content /\
  (exists first rest, split_messages content = first :: rest /\
     Forall (fun m => prefix ":20:" m = true) rest) /\
  (prefix ":20:" content = true ->
   exists rest, split_messages content = ""%string :: rest).
Proof.
intros content. unfold split_messages. split; [|split].
- apply split_from_concat.
- destruct (split_from_head content true "") as (x & rest & E).
  exists (("" ++ x)%string), rest. split; [exact E|].
  pose proof (split_from_tail_starts content true "") as H.
  rewrite E in H. exact H.
- intros Hp. destruct content as [|c s]; [discriminate|].
  cbn [split_from]. rewrite Hp. simpl. eauto.
Qed.

(** ** One record per message (lines 14-42) *)

Lemma parse_messages_inr (messages : list string) :
  forall rows, parse_messages messages = inr rows ->
  List.length rows = List.length messages /\
  forall i msg, nth_error messages i = Some msg ->
    exists row, nth_error rows i = Some row /\ parse_message msg = inr row.
Proof.
induction messages as [|m ms IH]; intros rows H; simpl in H.
- injection H as <-. split; [reflexivity|]. intros [|i] msg; discriminate.
- destruct (parse_message m) as [e|row] eqn:Hm; [discriminate|].
  destruct (parse_messages ms) as [e|rows'] eqn:Hms; [discriminate|].
  injection H as <-. destruct (IH rows' eq_refl) as [Hlen Hk].
  split; [simpl; lia|]. intros [|i] msg; simpl.
  + intros [= <-]. eauto.
  + apply Hk.
Qed.

Lemma parse_messages_inl (messages : list string) (e : exn) :
  parse_messages messages = inl e <->
  exists msg, In msg messages /\ parse_message msg = inl e /\
    exists before after, messages = before ++ msg :: after /\
      forall m, In m before -> exists row, parse_message m = inr row.
Proof.
induction messages as [|m ms IH]; simpl.
- split; [discriminate|]. intros (msg & [] & _).
- destruct (parse_message m) as [e'|row] eqn:Hm.
  + split.
    * intros [= <-]. exists m. split; [left; reflexivity|].
      split; [exact Hm|]. exists [], ms. split; [reflexivity|]. intros ? [].
    * intros (msg & _ & Hmsg & before & after & Heq & Hb).
      destruct before as [|b before]; simpl in Heq.
      -- injection Heq as -> _. congruence.
      -- injection Heq as -> _.
         destruct (Hb b (or_introl eq_refl)) as [r Hr]. congruence.
  + destruct (parse_messages ms) as [e'|rows] eqn:Hms.
    * split.
      -- intros [= <-]. destruct (proj1 IH eq_refl)
           as (msg & Hin & Hmsg & before & after & -> & Hb).
         exists msg. split; [right; exact Hin|]. split; [exact Hmsg|].
         exists (m :: before), after. split; [reflexivity|].
         intros m' [<- | Hin']; eauto.
      -- intros (msg & _ & Hmsg & before & after & Heq & Hb).
         destruct before as [|b before]; simpl in Heq.
         ++ injection Heq as -> _. congruence.
         ++ injection Heq as _ ->. f_equal.
            assert (H : inl e' = @inl exn (list MtRow) e).
            { apply IH. exists msg. split; [apply in_elt|].
              split; [exact Hmsg|]. exists before, after.
              split; [reflexivity|]. intros m' Hin'. apply Hb. right. exact Hin'. }
            congruence.
    * split; [discriminate|].
      intros (msg & _ & Hmsg & before & after & Heq & Hb).
      destruct before as [|b before]; simpl in Heq.
      -- injection Heq as -> _. congruence.
      -- injection Heq as _ ->.
         assert (H : @inr exn (list MtRow) rows = inl e); [|discriminate].
         apply IH. exists msg. split; [apply in_elt|].
         split; [exact Hmsg|]. exists before, after.
         split; [reflexivity|]. intros m' Hin'. apply Hb. right. exact Hin'.
Qed.

Lemma parsed_rows_follow_pieces (content : string) (mt : MtFrame) :
  parse_mt910_messages content = inr mt ->
  List.length (mt_rows mt) = List.length (split_messages content) /\
  forall i msg, nth_error (split_messages content) i = Some msg ->
    exists row, nth_error (mt_rows mt) i = Some row /\
                parse_message msg = inr row.
Proof.
unfold parse_mt910_messages.
destruct (parse_messages (split_messages content)) as [e|rows] eqn:Hp;
  [discriminate|].
intros [= <-]. simpl. apply parse_messages_inr. exact Hp.
Qed.

(** X2: when the parser returns, the frame has exactly one row per piece of
    the file, in order, each the record of its piece, and no result column;
    it is never empty; and when the file begins with [:20:], as a file of
    MT910 messages does, row 0 is the blank record of the empty piece before
    the first message. *)
Theorem parser_returns_one_row_per_piece :
  forall (content : string) (frame : MtFrame),
  parse_mt910_messages content = inr frame ->
  mt_columns frame = None /\
  List.length (mt_rows frame) = List.length (split_messages content) /\
  mt_rows frame <> [] /\
  (forall i msg, nth_error (split_messages content) i = Some msg ->
     exists row, nth_error (mt_rows frame) i = Some row /\
                 parse_message msg = inr row) /\
  (prefix ":20:" content = true ->
   nth_error (mt_rows frame) 0 = Some blank_row /\
   (2 <= List.length (mt_rows frame))%nat).
Proof.
intros content frame H.
destruct (parsed_rows_follow_pieces content frame H) as [Hlen Hk].
assert (Hcols : mt_columns frame = None).
{ unfold parse_mt910_messages in H.
  destruct (parse_messages (split_messages content)); [discriminate|].
  injection H as <-. reflexivity. }
destruct (split_from_head content true "") as (x & rest & Hsplit).
fold (split_messages content) in Hsplit.
split; [exact Hcols|]. split; [exact Hlen|]. split; [|split].
- rewrite Hsplit in Hlen. destruct (mt_rows frame); discriminate.
- exact Hk.
- intros Hpre. destruct (split_messages_blank_first content Hpre) as [rest' E].
  destruct (Hk 0%nat ""%string) as (row & Hrow & Hmsg);
    [rewrite E; reflexivity|].
  vm_compute in Hmsg. injection Hmsg as <-. split; [exact Hrow|].
  rewrite Hlen, E. simpl.
  destruct rest' as [|m rest']; [|simpl; lia].
  exfalso. pose proof (split_from_concat content true "") as Hc.
  unfold split_messages in E. rewrite E in Hc. simpl in Hc.
  rewrite <- Hc in Hpre. discriminate.
Qed.

Lemma parser_returns_one_row_per_piece_witness :
  parse_mt910_messages sample_file = inr sample_frame /\
  List.length (mt_rows sample_frame) = 3%nat /\
  nth_error (mt_rows sample_frame) 0 = Some blank_row.
Proof.
assert (H : parse_mt910_messages sample_file = inr sample_frame).
{ vm_compute. reflexivity. }
destruct (parser_returns_one_row_per_piece sample_file sample_frame H)
  as (_ & Hlen & _ & _ & Hblank).
split; [exact H|]. split; [reflexivity|].
apply Hblank. reflexivity.
Defined.

(** ** The fields of a record (lines 17-40) *)

Lemma match_details_sound (s date_str cur amt : string) :
  match_details s = Some (date_str, cur, amt) ->
  String.length date_str = 6%nat /\ all_chars is_digit date_str = true /\
  String.length cur = 3%nat /\ all_chars is_upper cur = true /\
  amt <> ""%string.
Proof.
unfold match_details. destruct (strip_prefix ":32A:" s) as [r|]; [|discriminate].
destruct (_ && _) eqn:Hc; [|discriminate].
intros [= <- <- <-].
repeat (apply andb_prop in Hc as [Hc ?]).
apply Nat.eqb_eq in Hc. apply Nat.eqb_eq in H1.
repeat split; auto.
intros E. rewrite E in H. discriminate.
Qed.

Lemma search_details_sound (msg date_str cur amt : string) :
  search_details msg = Some (date_str, cur, amt) ->
  String.length date_str = 6%nat /\ all_chars is_digit date_str = true /\
  String.length cur = 3%nat /\ all_chars is_upper cur = true /\
  amt <> ""%string.
Proof.
induction msg as [|c msg IH]; cbn [search_details].
- destruct (match_details "") as [g|] eqn:E; [|discriminate].
  intros [= ->]. eapply match_details_sound; eauto.
- destruct (match_details (String c msg)) as [g|] eqn:E; [|exact IH].
  intros [= ->]. eapply match_details_sound; eauto.
Qed.

(** X3: in every record the parser builds, currency and amount are both
    absent or both present, they are absent exactly when the message has no
    well-formed [:32A:] field, a date is present only with them, and a
    currency is three upper-case letters. *)
Theorem record_fields_come_together :
  forall (msg : string) (row : MtRow),
  parse_message msg = inr row ->
  (currency row = None <-> amount row = None) /\
  (search_details msg = None <-> currency row = None) /\
  (currency row = None -> date row = None) /\
  (forall c, currency row = Some c ->
     String.length c = 3%nat /\ all_chars is_upper c = true).
Proof.
intros msg row. unfold parse_message.
destruct (search_details msg) as [[[date_str cur] amt]|] eqn:Hd.
- destruct (float_of_amount (replace_comma amt)) as [x|]; [|discriminate].
  intros [= <-]. simpl.
  destruct (search_details_sound _ _ _ _ Hd) as (_ & _ & Hl & Hu & _).
  split; [split; discriminate|]. split; [split; discriminate|].
  split; [discriminate|]. intros c' [= <-]. split; assumption.
- intros [= <-]. simpl.
  split; [split; reflexivity|]. split; [split; reflexivity|].
  split; [reflexivity | discriminate].
Qed.

Lemma record_fields_come_together_witness :
  parse_message ":20:REF2
:32A:240230USD5.5
" = inr (mkMtRow "REF2" "" None (Some "USD"%string)
           (Some (of_decimal 55 10)) "") /\
  String.length "USD" = 3%nat.
Proof.
assert (H : parse_message ":20:REF2
:32A:240230USD5.5
" = inr (mkMtRow "REF2" "" None (Some "USD"%string)
           (Some (of_decimal 55 10)) "")).
{ vm_compute. reflexivity. }
split; [exact H|].
destruct (record_fields_come_together _ _ H) as (_ & _ & _ & Hc).
apply (Hc "USD"%string). reflexivity.
Defined.

(** ** What [float] makes of an amount (line 38) *)

Lemma iter_pos_invariant {A : Type} (P : A -> Prop) (f : A -> A) :
  (forall x, P x -> P (f x)) ->
  forall p x, P x -> P (SpecFloat.iter_pos f p x).
Proof.
intros Hf. induction p as [p IH|p IH|]; intros x Hx; simpl; auto.
Qed.

Lemma shr_1_nonneg (mrs : shr_record) :
  0 <= shr_m mrs -> 0 <= shr_m (shr_1 mrs).
Proof.
destruct mrs as [m r s]. simpl.
destruct m as [|[p|p|]|[p|p|]]; simpl; lia.
Qed.

Lemma shr_fexp_nonneg (m e : Z) (l : location) :
  0 <= m -> 0 <= shr_m (fst (shr_fexp prec emax m e l)).
Proof.
intros Hm. unfold shr_fexp, shr.
assert (H0 : 0 <= shr_m (shr_record_of_loc m l)).
{ destruct l as [|[| |]]; exact Hm. }
destruct (fexp prec emax (Zdigits2 m + e) - e) as [|p|p]; simpl; auto.
apply (iter_pos_invariant (fun r => 0 <= shr_m r)); auto.
apply shr_1_nonneg.
Qed.

Lemma round_nearest_even_nonneg (m : Z) (l : location) :
  0 <= m -> 0 <= round_nearest_even m l.
Proof.
intros Hm. unfold round_nearest_even.
destruct l as [|[| |]]; try destruct (Z.even m); lia.
Qed.

Lemma binary_round_aux_nonnegative (mx ex : Z) (lx : location) :
  0 <= mx ->
  is_nonnegative (binary_round_aux prec emax false mx ex lx) = true.
Proof.
intros Hm. unfold binary_round_aux.
pose proof (shr_fexp_nonneg mx ex lx Hm) as H1.
destruct (shr_fexp prec emax mx ex lx) as [mrs' e'].
simpl in H1.
pose proof (shr_fexp_nonneg _ e' loc_Exact
              (round_nearest_even_nonneg _ (loc_of_shr_record mrs') H1)) as H2.
destruct (shr_fexp prec emax
            (round_nearest_even (shr_m mrs') (loc_of_shr_record mrs')) e'
            loc_Exact) as [mrs'' e''].
simpl in H2. destruct (shr_m mrs'') as [|p|p]; [reflexivity| |lia].
destruct (e'' <=? emax - prec); reflexivity.
Qed.

Lemma float_of_scaled_nonnegative (n : Z) (k : nat) :
  is_nonnegative (float_of_scaled n k) = true.
Proof.
unfold float_of_scaled. destruct n as [|p|p]; try reflexivity.
unfold SFdiv, SFdiv_core_binary.
set (m' := match _ - _ - _ with Zpos _ => _ | Z0 => _ | Zneg _ => _ end).
assert (Hm' : 0 <= m').
{ subst m'. destruct (_ - _ - _); try lia. apply Z.shiftl_nonneg. lia. }
pose proof (Z_div_mod m' (Zpos (Nat.iter k (Pos.mul 10) 1%positive))
              ltac:(lia)) as Hdm.
destruct (Z.div_eucl m' (Zpos (Nat.iter k (Pos.mul 10) 1%positive)))
  as [q r].
apply binary_round_aux_nonnegative. nia.
Qed.

Lemma float_of_amount_nonnegative (a : string) (x : float) :
  float_of_amount a = Some x -> is_nonnegative x = true.
Proof.
unfold float_of_amount.
destruct (drop_while is_digit a) as [|c rest].
- destruct (String.eqb _ _); [discriminate|].
  intros [= <-]. apply float_of_scaled_nonnegative.
- destruct (_ && _); [|discriminate].
  intros [= <-]. apply float_of_scaled_nonnegative.
Qed.

(** X4: an amount the parser stores is never NaN and never below zero (it
    may be zero or infinite), so a row with a [:32A:] field never has a null
    amount for [reconcile]. *)
Theorem parsed_amount_is_a_nonnegative_number :
  forall (msg : string) (row : MtRow) (x : float),
  parse_message msg = inr row ->
  amount row = Some x ->
  is_nonnegative x = true /\ isnan x = false /\
  isnull_amount (amount row) = false.
Proof.
intros msg row x. unfold parse_message.
destruct (search_details msg) as [[[date_str cur] amt]|]; [|intros [= <-]; discriminate].
destruct (float_of_amount (replace_comma amt)) as [y|] eqn:Hy; [|discriminate].
intros [= <-]. simpl. intros [= <-].
pose proof (float_of_amount_nonnegative _ _ Hy) as Hn.
destruct y as [[|]|[|]| |[|] m e]; try discriminate Hn; auto.
Qed.

Lemma parsed_amount_is_a_nonnegative_number_witness :
  parse_message ":32A:240501EUR100,00" =
    inr (mkMtRow "" "" (Some (ordinal 2024 5 1)) (Some "EUR"%string)
           (Some (of_decimal 10000 100)) "") /\
  is_nonnegative (of_decimal 10000 100) = true.
Proof.
assert (H : parse_message ":32A:240501EUR100,00" =
            inr (mkMtRow "" "" (Some (ordinal 2024 5 1)) (Some "EUR"%string)
                   (Some (of_decimal 10000 100)) "")).
{ vm_compute. reflexivity. }
split; [exact H|].
apply (parsed_amount_is_a_nonnegative_number _ _ _ H eq_refl).
Defined.

(** ** The value date (lines 23-29) *)

Lemma digit_value_range (c : ascii) :
  is_digit c = true -> 0 <= digit_value c <= 9.
Proof.
unfold is_digit, digit_value. intros H. apply andb_prop in H as [H1 H2].
apply Nat.leb_le in H1, H2. lia.
Qed.

Ltac div_facts :=
  repeat match goal with
  | |- context [?a / ?c] =>
      let q := fresh "q" in
      pose proof (Z.mul_div_le a c ltac:(lia));
      pose proof (Z.mul_succ_div_gt a c ltac:(lia));
      set (q := a / c) in *
  end.

Lemma ordinal_window (y m d : Z) :
  1969 <= y <= 2068 -> 1 <= m <= 12 -> 1 <= d <= 31 ->
  ordinal 1969 1 1 <= ordinal y m d <= ordinal 2068 12 31.
Proof.
intros Hy Hm Hd.
change (ordinal 1969 1 1) with 718798. change (ordinal 2068 12 31) with 755322.
unfold ordinal.
destruct (m <=? 2) eqn:E; [apply Z.leb_le in E | apply Z.leb_gt in E].
- assert (Hq : (y - 1) / 400 = 4 \/ (y - 1) / 400 = 5).
  { assert (4 <= (y - 1) / 400) by (apply Z.div_le_lower_bound; lia).
    assert ((y - 1) / 400 < 6) by (apply Z.div_lt_upper_bound; lia). lia. }
  destruct Hq as [-> | ->]; div_facts; lia.
- assert (Hq : y / 400 = 4 \/ y / 400 = 5).
  { assert (4 <= y / 400) by (apply Z.div_le_lower_bound; lia).
    assert (y / 400 < 6) by (apply Z.div_lt_upper_bound; lia). lia. }
  destruct Hq as [-> | ->]; div_facts; lia.
Qed.

Lemma int_of_two_digits (a b : ascii) :
  int_of_digits (String a (String b "")) = 10 * digit_value a + digit_value b.
Proof. unfold int_of_digits. cbn [int_of_digits_from]. lia. Qed.

Lemma strptime_window (date_str : string) (d : Z) :
  String.length date_str = 6%nat -> all_chars is_digit date_str = true ->
  strptime date_str = Some d ->
  ordinal 1969 1 1 <= d <= ordinal 2068 12 31.
Proof.
intros Hlen Hdig.
destruct date_str as [|c1 [|c2 [|c3 [|c4 [|c5 [|c6 [|c7 rest]]]]]]];
  try discriminate Hlen.
cbn [all_chars] in Hdig.
repeat (apply andb_prop in Hdig as [?%digit_value_range Hdig]).
unfold strptime. cbn [substring]. rewrite !int_of_two_digits.
set (yy := 10 * digit_value c1 + digit_value c2).
set (mm := 10 * digit_value c3 + digit_value c4).
set (dd := 10 * digit_value c5 + digit_value c6).
assert (0 <= yy <= 99) by (subst yy; lia).
set (year := if yy <=? 68 then 2000 + yy else 1900 + yy).
assert (1969 <= year <= 2068).
{ subst year. destruct (yy <=? 68) eqn:E;
    [apply Z.leb_le in E | apply Z.leb_gt in E]; lia. }
destruct (_ && _) eqn:Hv; [|discriminate].
intros [= <-].
repeat (apply andb_prop in Hv as [Hv ?]).
apply Z.leb_le in Hv. apply Z.leb_le in H7. apply Z.leb_le in H8.
apply Z.leb_le in H9.
assert (days_in_month year mm <= 31).
{ unfold days_in_month. repeat destruct (_ =? _); cbn [orb];
    try destruct (is_leap year); lia. }
apply ordinal_window; lia.
Qed.

(** X5: a date the parser stores lies between 1 January 1969 and
    31 December 2068: two-digit years up to 68 are read as 20xx and the
    others as 19xx. *)
Theorem parsed_date_is_between_1969_and_2068 :
  forall (msg : string) (row : MtRow) (d : Z),
  parse_message msg = inr row ->
  date row = Some d ->
  ordinal 1969 1 1 <= d <= ordinal 2068 12 31.
Proof.
intros msg row d. unfold parse_message.
destruct (search_details msg) as [[[date_str cur] amt]|] eqn:Hd;
  [|intros [= <-]; discriminate].
destruct (float_of_amount (replace_comma amt)); [|discriminate].
intros [= <-]. cbn [date].
destruct (search_details_sound _ _ _ _ Hd) as (Hlen & Hdig & _).
apply strptime_window; assumption.
Qed.

Lemma parsed_date_is_between_1969_and_2068_witness :
  parse_message ":32A:690101EUR1" =
    inr (mkMtRow "" "" (Some 718798) (Some "EUR"%string)
           (Some (of_decimal 1 1)) "") /\
  parse_message ":32A:681231EUR1" =
    inr (mkMtRow "" "" (Some 755322) (Some "EUR"%string)
           (Some (of_decimal 1 1)) "") /\
  ordinal 1969 1 1 <= 718798 <= ordinal 2068 12 31.
Proof.
assert (H : parse_message ":32A:690101EUR1" =
            inr (mkMtRow "" "" (Some 718798) (Some "EUR"%string)
                   (Some (of_decimal 1 1)) "")).
{ vm_compute. reflexivity. }
split; [exact H|]. split; [vm_compute; reflexivity|].
apply (parsed_date_is_between_1969_and_2068 _ _ 718798 H eq_refl).
Defined.

(** ** When the parser raises (line 38) *)

Lemma take_while_all (f : ascii -> bool) (s : string) :
  all_chars f (take_while f s) = true.
Proof.
induction s as [|c s IH]; simpl; [reflexivity|].
destruct (f c) eqn:E; simpl; [rewrite E; exact IH | reflexivity].
Qed.

Lemma take_drop_while (f : ascii -> bool) (s : string) :
  (take_while f s ++ drop_while f s)%string = s.
Proof.
induction s as [|c s IH]; simpl; [reflexivity|].
destruct (f c); simpl; [rewrite IH|]; reflexivity.
Qed.

Lemma drop_while_head (f : ascii -> bool) (s : string) (c : ascii) (r : string) :
  drop_while f s = String c r -> f c = false.
Proof.
induction s as [|x s IH]; simpl; [discriminate|].
destruct (f x) eqn:E; [exact IH|]. intros [= <- _]. exact E.
Qed.

Lemma is_digit_replace (c : ascii) :
  is_digit (if Ascii.eqb c "," then "."%char else c) = is_digit c.
Proof.
destruct (Ascii.eqb c ",") eqn:E; [|reflexivity].
apply Ascii.eqb_eq in E. subst c. reflexivity.
Qed.

Lemma take_while_replace (s : string) :
  take_while is_digit (replace_comma s) = take_while is_digit s.
Proof.
induction s as [|c s IH]; simpl; [reflexivity|].
rewrite is_digit_replace. destruct (is_digit c) eqn:E; [|reflexivity].
rewrite IH. destruct (Ascii.eqb c ",") eqn:E'; [|reflexivity].
apply Ascii.eqb_eq in E'. subst c. discriminate E.
Qed.

Lemma drop_while_replace (s : string) :
  drop_while is_digit (replace_comma s) = replace_comma (drop_while is_digit s).
Proof.
induction s as [|c s IH]; simpl; [reflexivity|].
rewrite is_digit_replace. destruct (is_digit c); [exact IH | reflexivity].
Qed.

Lemma replace_comma_empty (s : string) :
  replace_comma s = ""%string <-> s = ""%string.
Proof. destruct s; simpl; split; intros H; try reflexivity; discriminate. Qed.

Lemma count_separators_app (x y : string) :
  count_separators (x ++ y) = (count_separators x + count_separators y)%nat.
Proof. induction x as [|c x IH]; simpl; [reflexivity | rewrite IH; lia]. Qed.

Lemma count_separators_digits (s : string) :
  all_chars is_digit s = true -> count_separators s = 0%nat.
Proof.
induction s as [|c s IH]; simpl; [reflexivity|].
intros H. apply andb_prop in H as [-> H]. rewrite IH by exact H. reflexivity.
Qed.

Lemma count_separators_le (s : string) :
  (count_separators s <= String.length s)%nat.
Proof. induction s as [|c s IH]; simpl; [lia|]. destruct (is_digit c); lia. Qed.

Lemma string_eqb_empty (s : string) :
  String.eqb s "" = true <-> s = ""%string.
Proof. destruct s; simpl; split; intros H; try reflexivity; discriminate. Qed.

Lemma float_of_amount_none (a : string) :
  all_chars is_amount_char a = true ->
  (float_of_amount (replace_comma a) = None <->
   (2 <= count_separators a)%nat \/ String.length a = count_separators a).
Proof.
intros Hch. unfold float_of_amount.
rewrite take_while_replace, drop_while_replace.
pose proof (take_drop_while is_digit a) as Ha.
pose proof (take_while_all is_digit a) as Hd1.
remember (take_while is_digit a) as D1 eqn:HD1. clear HD1.
destruct (drop_while is_digit a) as [|c R'] eqn:HR.
- rewrite string_app_nil_r in Ha. subst a. simpl.
  rewrite (count_separators_digits _ Hd1).
  destruct (String.eqb D1 "") eqn:E.
  + apply string_eqb_empty in E. rewrite E. simpl. split; auto.
  + split; [discriminate|]. intros [H | H]; [lia|].
    destruct D1; [discriminate E | discriminate H].
- pose proof (drop_while_head _ _ _ _ HR) as Hc.
  assert (Hsep : (if Ascii.eqb c "," then "."%char else c) = "."%char).
  { rewrite <- Ha in Hch. clear - Hch Hc.
    induction D1 as [|x D1 IH]; simpl in Hch.
    - apply andb_prop in Hch as [Hch _]. unfold is_amount_char in Hch.
      rewrite Hc in Hch. simpl in Hch.
      destruct (Ascii.eqb c ","); [reflexivity|].
      simpl in Hch. apply Ascii.eqb_eq in Hch. exact Hch.
    - apply andb_prop in Hch as [_ Hch]. exact (IH Hch). }
  cbn [replace_comma]. rewrite Hsep, take_while_replace, drop_while_replace.
  pose proof (take_drop_while is_digit R') as HR'.
  pose proof (take_while_all is_digit R') as Hd2.
  remember (take_while is_digit R') as D2 eqn:HD2. clear HD2.
  assert (Hc2 : count_separators R' =
                count_separators (drop_while is_digit R')).
  { rewrite <- HR' at 1.
    rewrite count_separators_app, (count_separators_digits _ Hd2).
    reflexivity. }
  assert (Hl2 : String.length R' =
                (String.length D2
                 + String.length (drop_while is_digit R'))%nat).
  { rewrite <- HR' at 1. apply string_length_app. }
  assert (Hcount : count_separators a =
                   S (count_separators (drop_while is_digit R'))).
  { rewrite <- Ha, count_separators_app, (count_separators_digits _ Hd1).
    cbn [count_separators]. rewrite Hc, Hc2. lia. }
  assert (Hlen : String.length a =
                 (String.length D1 + S (String.length D2
                    + String.length (drop_while is_digit R')))%nat).
  { rewrite <- Ha, string_length_app. cbn [String.length]. rewrite Hl2.
    reflexivity. }
  destruct (drop_while is_digit R') as [|c' R''] eqn:HR''.
  + simpl (replace_comma ""). simpl (String.eqb "" "").
    rewrite Ascii.eqb_refl. simpl andb. simpl in Hcount, Hlen.
    destruct (String.eqb (D1 ++ D2) "") eqn:E; simpl.
    * apply string_eqb_empty in E.
      destruct D1; [|discriminate E]. simpl in E. subst D2.
      split; [|reflexivity]. intros _. right. simpl in Hlen. lia.
    * split; [discriminate|]. intros [H | H]; [lia|].
      assert (String.length D1 = 0 /\ String.length D2 = 0)%nat as [L1 L2] by lia.
      destruct D1; [|discriminate L1]. destruct D2; [|discriminate L2].
      discriminate E.
  + rewrite Ascii.eqb_refl. cbn [replace_comma String.eqb andb].
    split; [|reflexivity]. intros _. left.
    pose proof (drop_while_head _ _ _ _ HR'') as Hc'.
    rewrite Hcount. cbn [count_separators]. rewrite Hc'. lia.
Qed.

Lemma match_details_amount_chars (s date_str cur amt : string) :
  match_details s = Some (date_str, cur, amt) ->
  all_chars is_amount_char amt = true.
Proof.
unfold match_details. destruct (strip_prefix ":32A:" s) as [r|]; [|discriminate].
destruct (_ && _); [|discriminate].
intros [= _ _ <-]. apply take_while_all.
Qed.

Lemma search_details_amount_chars (msg date_str cur amt : string) :
  search_details msg = Some (date_str, cur, amt) ->
  all_chars is_amount_char amt = true.
Proof.
induction msg as [|c msg IH]; cbn [search_details].
- destruct (match_details "") as [g|] eqn:E; [|discriminate].
  intros [= ->]. eapply match_details_amount_chars; eauto.
- destruct (match_details (String c msg)) as [g|] eqn:E; [|exact IH].
  intros [= ->]. eapply match_details_amount_chars; eauto.
Qed.

Lemma parse_message_inl (msg : string) (e : exn) :
  parse_message msg = inl e <->
  e = ValueError "could not convert string to float" /\
  exists date_str cur amt,
    search_details msg = Some (date_str, cur, amt) /\
    ((2 <= count_separators amt)%nat \/
     String.length amt = count_separators amt).
Proof.
unfold parse_message.
destruct (search_details msg) as [[[date_str cur] amt]|] eqn:Hd.
- pose proof (float_of_amount_none amt (search_details_amount_chars _ _ _ _ Hd))
    as Hnone.
  destruct (float_of_amount (replace_comma amt)) as [x|].
  + split; [discriminate|]. intros (_ & d' & c' & a' & [= <- <- <-] & Hbad).
    apply Hnone in Hbad. discriminate.
  + split.
    * intros [= <-]. split; [reflexivity|].
      exists date_str, cur, amt. split; [reflexivity|]. apply Hnone. reflexivity.
    * intros [-> _]. reflexivity.
- split; [discriminate|]. intros (_ & d' & c' & a' & H & _). discriminate.
Qed.

(** X6: the parser raises exactly when, in some message, the amount of the
    [:32A:] field holds two or more separators (as in 1.234,56) or no digit
    at all; the exception is then the [ValueError] of [float], which the
    script does not catch, and no frame is returned for any message. *)
Theorem parser_raises_iff_an_amount_is_malformed :
  forall (content : string) (e : exn),
  parse_mt910_messages content = inl e <->
  e = ValueError "could not convert string to float" /\
  exists msg date_str cur amt,
    In msg (split_messages content) /\
    search_details msg = Some (date_str, cur, amt) /\
    ((2 <= count_separators amt)%nat \/
     String.length amt = count_separators amt).
Proof.
intros content e. unfold parse_mt910_messages.
destruct (parse_messages (split_messages content)) as [e'|rows] eqn:Hp.
- apply parse_messages_inl in Hp as (msg & Hin & Hmsg & _).
  apply parse_message_inl in Hmsg as [-> (d & c & a & Hd & Hbad)].
  split.
  + intros [= <-]. split; [reflexivity|]. exists msg, d, c, a. auto.
  + intros [-> _]. reflexivity.
- split; [discriminate|].
  intros (-> & msg & d & c & a & Hin & Hd & Hbad). exfalso.
  apply In_nth_error in Hin as [i Hi].
  destruct (parse_messages_inr _ _ Hp) as [_ Hk].
  destruct (Hk i msg Hi) as (row & _ & Hrow).
  assert (H : parse_message msg =
              inl (ValueError "could not convert string to float")).
  { apply parse_message_inl. split; [reflexivity|]. exists d, c, a. auto. }
  congruence.
Qed.

(** A thousands separator makes the whole file unreadable. *)
Example thousands_separator_raises :
  parse_mt910_messages ":20:REF1
:32A:240501EUR100,00
:20:REF2
:32A:240502EUR1.234,56
" = inl (ValueError "could not convert string to float").
Proof. vm_compute. reflexivity. Qed.

(** ** The text fields (lines 34, 35 and 39) *)

Lemma rstrip_idempotent (s : string) : rstrip (rstrip s) = rstrip s.
Proof.
induction s as [|c s IH]; [reflexivity|].
cbn [rstrip]. destruct (rstrip s) as [|c' r'] eqn:E.
- destruct (is_space c) eqn:Hc; [reflexivity|].
  cbn [rstrip]. rewrite Hc. reflexivity.
- cbn [rstrip]. cbn [rstrip] in IH. rewrite IH. reflexivity.
Qed.

Lemma lstrip_head (s : string) :
  lstrip s = ""%string \/
  exists c r, lstrip s = String c r /\ is_space c = false.
Proof.
induction s as [|c s IH]; simpl; [left; reflexivity|].
destruct (is_space c) eqn:E; [exact IH|]. right. eauto.
Qed.

Lemma rstrip_keeps_head (c : ascii) (r : string) :
  is_space c = false -> exists r', rstrip (String c r) = String c r'.
Proof.
intros Hc. cbn [rstrip]. destruct (rstrip r); [rewrite Hc|]; eauto.
Qed.

Lemma strip_idempotent (s : string) : strip (strip s) = strip s.
Proof.
unfold strip. destruct (lstrip_head s) as [-> | (c & r & -> & Hc)];
  [reflexivity|].
destruct (rstrip_keeps_head c r Hc) as [r' E]. rewrite E.
cbn [lstrip]. rewrite Hc, <- E. apply rstrip_idempotent.
Qed.

Lemma no_newline_first_line (s : string) : no_newline (first_line s) = true.
Proof.
unfold no_newline. induction s as [|c s IH]; simpl; [reflexivity|].
destruct (Ascii.eqb c newline) eqn:E; simpl; [reflexivity|].
rewrite E. exact IH.
Qed.

Lemma no_newline_lstrip (s : string) :
  no_newline s = true -> no_newline (lstrip s) = true.
Proof.
unfold no_newline. induction s as [|c s IH]; simpl; [reflexivity|].
intros H. destruct (is_space c); [|exact H].
apply andb_prop in H as [_ H]. exact (IH H).
Qed.

Lemma no_newline_rstrip (s : string) :
  no_newline s = true -> no_newline (rstrip s) = true.
Proof.
unfold no_newline. induction s as [|c s IH]; [reflexivity|].
cbn [all_chars rstrip]. intros H. apply andb_prop in H as [Hc H].
specialize (IH H). destruct (rstrip s) as [|c' r'].
- destruct (is_space c); [reflexivity|]. simpl. rewrite Hc. reflexivity.
- cbn [all_chars]. rewrite Hc. exact IH.
Qed.

Lemma search_tag_no_newline (tag msg g : string) :
  search_tag tag msg = Some g -> no_newline g = true.
Proof.
induction msg as [|c msg IH]; cbn [search_tag].
- destruct (strip_prefix tag "") as [r|]; [|discriminate].
  intros [= <-]. apply no_newline_first_line.
- destruct (strip_prefix tag (String c msg)) as [r|]; [|exact IH].
  intros [= <-]. apply no_newline_first_line.
Qed.

Lemma stripped_clean (tag msg : string) :
  strip (stripped (search_tag tag msg)) = stripped (search_tag tag msg) /\
  no_newline (stripped (search_tag tag msg)) = true.
Proof.
destruct (search_tag tag msg) as [g|] eqn:E; simpl; [|split; reflexivity].
split; [apply strip_idempotent|].
unfold strip. apply no_newline_rstrip, no_newline_lstrip.
eapply search_tag_no_newline; eauto.
Qed.

(** X7: the reference, the account and the narration of every record are
    single lines without blanks at either end: stripping them again changes
    nothing and none holds a newline. *)
Theorem record_text_fields_are_stripped_lines :
  forall (msg : string) (row : MtRow),
  parse_message msg = inr row ->
  (strip (reference row) = reference row /\ no_newline (reference row) = true) /\
  (strip (account row) = account row /\ no_newline (account row) = true) /\
  (strip (narration row) = narration row /\ no_newline (narration row) = true).
Proof.
intros msg row. unfold parse_message.
destruct (search_details msg) as [[[date_str cur] amt]|].
- destruct (float_of_amount (replace_comma amt)); [|discriminate].
  intros [= <-]. simpl. repeat split; apply stripped_clean.
- intros [= <-]. simpl. repeat split; apply stripped_clean.
Qed.

Lemma record_text_fields_are_stripped_lines_witness :
  parse_message ":20:  REF 1	
:86: Invoice 4521   payment  
" = inr (mkMtRow "REF 1" "" None None None "Invoice 4521   payment") /\
  strip "Invoice 4521   payment" = "Invoice 4521   payment"%string.
Proof.
assert (H : parse_message ":20:  REF 1	
:86: Invoice 4521   payment  
" = inr (mkMtRow "REF 1" "" None None None "Invoice 4521   payment")).
{ vm_compute. reflexivity. }
split; [exact H|].
destruct (record_text_fields_are_stripped_lines _ _ H) as (_ & _ & Hn & _).
exact Hn.
Defined.

(** ** Parsing, then reconciling (lines 107-109) *)

Lemma run_reconciliation_inr
    (tfidf_cosine : Vectorizer -> list nat -> list nat -> float)
    (content : string) (app : list AppRow) (frame : MtFrame) :
  run_reconciliation tfidf_cosine content app = inr frame ->
  exists mt st',
    parse_mt910_messages content = inr mt /\
    reconcile tfidf_cosine (mkStore mt app) = (inr frame, st').
Proof.
unfold run_reconciliation.
destruct (parse_mt910_messages content) as [e|mt]; [discriminate|].
destruct (reconcile tfidf_cosine (mkStore mt app)) as [out st'] eqn:E.
simpl. intros ->. eauto.
Qed.

(** X8: in the result of a run, the line of every message without a
    well-formed [:32A:] field is the unmatched line; so is line 0 when the
    file begins with [:20:], because that line belongs to the empty piece
    before the first message; and the result has one line per piece of the
    file. *)
Theorem messages_without_details_stay_unmatched :
  forall (tfidf_cosine : Vectorizer -> list nat -> list nat -> float)
         (content : string) (app : list AppRow) (frame : MtFrame)
         (cols : Columns),
  run_reconciliation tfidf_cosine content app = inr frame ->
  mt_columns frame = Some cols ->
  List.length (matched_index cols) = List.length (split_messages content) /\
  (forall i msg, nth_error (split_messages content) i = Some msg ->
     search_details msg = None -> result_at cols i = Some unmatched) /\
  (prefix ":20:" content = true -> result_at cols 0 = Some unmatched).
Proof.
intros tfidf_cosine content app frame cols Hrun Hcols.
destruct (run_reconciliation_inr _ _ _ _ Hrun) as (mt & st' & Hparse & Hrec).
destruct (parsed_rows_follow_pieces content mt Hparse)
  as (Hlen & Hrows).
destruct (reconcile_lines _ _ _ _ Hrec)
  as (v & cols' & _ & -> & _ & (L1 & _) & Hlines).
simpl in Hcols. injection Hcols as ->. simpl in *.
assert (Hnull : forall i msg, nth_error (split_messages content) i = Some msg ->
                  search_details msg = None ->
                  result_at cols i = Some unmatched).
{ intros i msg Hi Hd. destruct (Hrows i msg Hi) as (row & Hrow & Hmsg).
  destruct (Hlines i row Hrow) as (r & srow & Hat & _ & _ & Hm & _).
  rewrite (match_row_null _ _ _ (lower_row row)) in Hm.
  - congruence.
  - left. unfold parse_message in Hmsg. rewrite Hd in Hmsg.
    injection Hmsg as <-. reflexivity. }
split; [lia|]. split; [exact Hnull|].
intros Hpre.
destruct (split_messages_blank_first content Hpre) as [rest E].
apply (Hnull 0%nat ""%string); [rewrite E|]; reflexivity.
Qed.

Lemma messages_without_details_stay_unmatched_witness :
  run_reconciliation count_cosine sample_file ledger_A =
    inr (mkMtFrame (map lower_row (mt_rows sample_frame))
           (Some sample_columns)) /\
  result_at sample_columns 0 = Some unmatched.
Proof.
assert (H : run_reconciliation count_cosine sample_file ledger_A =
            inr (mkMtFrame (map lower_row (mt_rows sample_frame))
                   (Some sample_columns))).
{ vm_compute. reflexivity. }
split; [exact H|].
destruct (messages_without_details_stay_unmatched count_cosine sample_file
            ledger_A _ sample_columns H eq_refl) as (_ & _ & H0).
apply H0. reflexivity.
Defined.

Lemma reconcile_inl_value_error
    (tfidf_cosine : Vectorizer -> list nat -> list nat -> float)
    (st st' : Store) (e : exn) :
  reconcile tfidf_cosine st = (inl e, st') -> exists msg, e = ValueError msg.
Proof.
rewrite reconcile_unfold. destruct (fit (corpus st)) as [e'|v] eqn:Hfit.
- intros [= <- _]. unfold fit in Hfit.
  destruct (nodup string_dec (List.concat (map tokenize (corpus st))));
    [|discriminate].
  injection Hfit as <-. eauto.
- destruct (loops_return tfidf_cosine v (lowered st) (app_df st)) as [cols Hc].
  rewrite Hc.
  destruct (lowered st); [intros [= <- _]; eauto|].
  destruct (app_df st); [intros [= <- _]; eauto|]. discriminate.
Qed.

(** X9: a run returns exactly when the parser returns, the ledger has at
    least one row and some narration, of a message or of the ledger, holds a
    token; the bank side is never what is missing, the parser always giving
    at least one row.  Every exception of a run is a [ValueError]. *)
Theorem run_returns_iff_parsed_and_ledger_nonempty :
  forall (tfidf_cosine : Vectorizer -> list nat -> list nat -> float)
         (content : string) (app : list AppRow),
  ((exists frame, run_reconciliation tfidf_cosine content app = inr frame) <->
   (exists mt, parse_mt910_messages content = inr mt /\ app <> [] /\
      exists doc, In doc (corpus (mkStore mt app)) /\ tokenize doc <> [])) /\
  (forall e, run_reconciliation tfidf_cosine content app = inl e ->
     exists msg, e = ValueError msg).
Proof.
intros tfidf_cosine content app. split; [split|].
- intros [frame Hrun].
  destruct (run_reconciliation_inr _ _ _ _ Hrun) as (mt & st' & Hparse & Hrec).
  destruct (reconcile_inr _ _ _ _ Hrec) as (v & cols & Hfit & _ & Happ & _).
  exists mt. split; [exact Hparse|]. split; [exact Happ|].
  apply fit_returns_iff. exists v. exact Hfit.
- intros (mt & Hparse & Happ & Hdoc).
  apply fit_returns_iff in Hdoc as [v Hfit].
  assert (Hmt : mt_rows (mt_df (mkStore mt app)) <> []).
  { destruct (parsed_rows_follow_pieces _ _ Hparse) as [Hlen _].
    destruct (split_from_head content true "") as (x & rest & Hsplit).
    fold (split_messages content) in Hsplit. rewrite Hsplit in Hlen.
    simpl. destruct (mt_rows mt); discriminate. }
  destruct (reconcile_returns tfidf_cosine _ v Hfit Hmt Happ) as [cols H].
  unfold run_reconciliation. rewrite Hparse, H. simpl. eauto.
- intros e. unfold run_reconciliation.
  destruct (parse_mt910_messages content) as [e'|mt] eqn:Hparse.
  + intros [= <-]. unfold parse_mt910_messages in Hparse.
    destruct (parse_messages (split_messages content)) as [e''|rows] eqn:Hp;
      [|discriminate].
    injection Hparse as <-.
    apply parse_messages_inl in Hp as (msg & _ & Hmsg & _).
    apply parse_message_inl in Hmsg as [-> _]. eauto.
  + destruct (reconcile tfidf_cosine (mkStore mt app)) as [out st'] eqn:H.
    simpl. intros ->.
    eapply reconcile_inl_value_error; eauto.
Qed.

(** ** The tolerance test (lines 76-77) *)

Lemma fabs_binary_round_aux (s : bool) (mx ex : Z) (lx : location) :
  fabs (binary_round_aux prec emax s mx ex lx) =
  fabs (binary_round_aux prec emax false mx ex lx).
Proof.
unfold binary_round_aux.
destruct (shr_fexp prec emax mx ex lx) as [mrs' e'].
destruct (shr_fexp prec emax _ e' loc_Exact) as [mrs'' e''].
destruct (shr_m mrs''); [reflexivity| |reflexivity].
destruct (e'' <=? emax - prec); reflexivity.
Qed.

Lemma fabs_binary_normalize_opp (z e : Z) :
  fabs (binary_normalize prec emax (- z) e false) =
  fabs (binary_normalize prec emax z e false).
Proof.
destruct z as [|p|p]; [reflexivity| |]; simpl; unfold binary_round;
  destruct (shl_align _ _ _) as [mz ez];
  rewrite (fabs_binary_round_aux true); reflexivity.
Qed.

Lemma fabs_sub_comm (a b : float) : fabs (sub a b) = fabs (sub b a).
Proof.
destruct a as [sa|sa| |sa ma ea], b as [sb|sb| |sb mb eb];
  try (destruct sa, sb; reflexivity); try (destruct sa; reflexivity);
  try (destruct sb; reflexivity); try reflexivity.
unfold sub, SFsub. rewrite (Z.min_comm eb ea).
rewrite <- fabs_binary_normalize_opp. f_equal. f_equal. lia.
Qed.

Lemma sub_self_finite (s : bool) (m : positive) (e : Z) :
  sub (S754_finite s m e) (S754_finite s m e) = zero.
Proof.
unfold sub, SFsub. rewrite Z.sub_diag. reflexivity.
Qed.

(** X10: the tolerance test does not depend on which side is the bank:
    swapping the two amounts, or the two dates, gives the same verdict, and
    so does swapping the date and amount of the bank row with those of the
    ledger row.  An amount is within tolerance of itself exactly when it is
    finite: an infinite amount (a digit string beyond the binary64 range)
    matches nothing, not even an equal one.  A date is always within
    tolerance of itself. *)
Theorem tolerance_is_symmetric :
  forall (a b : float) (d e : Z) (row : MtRow) (app_row : AppRow),
  amount_match a b = amount_match b a /\
  date_match d e = date_match e d /\
  is_eligible
    (mkMtRow (reference row) (account row) (app_date app_row) (currency row)
       (app_amount app_row) (narration row))
    (mkAppRow (date row) (amount row) (app_narration app_row))
  = is_eligible row app_row /\
  (amount_match a a = true <-> is_finite a = true) /\
  date_match d d = true.
Proof.
intros a b d e row app_row.
assert (Ha : amount_match a b = amount_match b a).
{ unfold amount_match. rewrite fabs_sub_comm. reflexivity. }
assert (Hd : forall x y, date_match x y = date_match y x).
{ intros x y. unfold date_match. f_equal. lia. }
split; [exact Ha|]. split; [apply Hd|]. split; [|split].
- unfold is_eligible. simpl.
  destruct (date row) as [x|], (app_date app_row) as [y|],
    (amount row) as [u|], (app_amount app_row) as [w|]; try reflexivity.
  unfold amount_match in Ha. rewrite fabs_sub_comm.
  f_equal. apply (Hd y x).
- destruct a as [s|s| |s m e0].
  + destruct s; split; reflexivity.
  + destruct s; split; discriminate.
  + split; discriminate.
  + unfold amount_match. rewrite sub_self_finite. split; reflexivity.
- unfold date_match. rewrite Z.sub_diag. reflexivity.
Qed.

(** An infinite amount is out of tolerance of every amount. *)
Lemma infinite_amount_matches_nothing (s : bool) (b : float) :
  amount_match (S754_infinity s) b = false /\
  amount_match b (S754_infinity s) = false.
Proof.
destruct b as [sb|sb| |sb mb eb]; destruct s; try destruct sb;
  split; reflexivity.
Qed.

(** ** Which bank rows are matched (lines 67-96) *)

Lemma nth_error_score_row
    (tfidf_cosine : Vectorizer -> list nat -> list nat -> float)
    (v : Vectorizer) (narr : string) (app : list AppRow) (j : nat) (e : AppRow) :
  nth_error app j = Some e ->
  nth_error (map (fun e => tfidf_cosine v (count_row (vocabulary_ v) narr)
                             (count_row (vocabulary_ v) (app_narration e)))
               app) j
  = Some (tfidf_cosine v (count_row (vocabulary_ v) narr)
            (count_row (vocabulary_ v) (app_narration e))).
Proof. intros H. rewrite nth_error_map, H. reflexivity. Qed.

(** X11: when [reconcile] returns, a bank row is given an index exactly when
    some ledger row is within both tolerances of it and has a similarity
    above 0 with its narration: no such candidate is ever passed over, and
    nothing else is ever matched. *)
Theorem matched_iff_some_eligible_candidate_scores :
  forall (tfidf_cosine : Vectorizer -> list nat -> list nat -> float)
         (st st' : Store) (frame : MtFrame) (cols : Columns)
         (i : nat) (row : MtRow),
  reconcile tfidf_cosine st = (inr frame, st') ->
  mt_columns frame = Some cols ->
  nth_error (mt_rows (mt_df st)) i = Some row ->
  exists v,
    fit (corpus st) = inr v /\
    ((exists j, nth_error (matched_index cols) i = Some (Some j)) <->
     (exists j e,
        nth_error (app_df st) j = Some e /\ is_eligible row e = true /\
        gt (tfidf_cosine v
              (count_row (vocabulary_ v) (lower (narration row)))
              (count_row (vocabulary_ v) (app_narration e))) zero = true)).
Proof.
intros tfidf_cosine st st' frame cols i row Hrec Hcols Hrow.
destruct (reconcile_lines _ _ _ _ Hrec)
  as (v & cols' & Hfit & -> & _ & _ & Hlines).
simpl in Hcols. injection Hcols as ->.
destruct (Hlines i row Hrow) as (r & srow & Hat & _ & Hsrow & _ & Hsel).
destruct (result_at_inv _ _ _ Hat) as (Hidx & _).
exists v. split; [exact Hfit|]. rewrite Hidx. split.
- intros [j Hj]. injection Hj as Hj.
  destruct Hsel as [[-> _] | (j' & e & s & -> & He & Hs & El & Hpos & _)];
    [discriminate|].
  exists j', e. split; [exact He|]. split; [exact El|].
  rewrite Hsrow, (nth_error_score_row _ _ _ _ _ _ He) in Hs.
  injection Hs as ->. exact Hpos.
- intros (j & e & He & El & Hpos).
  destruct Hsel as [[-> Hnone] | (j' & e' & s & -> & _)].
  + exfalso.
    pose proof (nth_error_score_row tfidf_cosine v (lower (narration row))
                  _ _ _ He) as Hs.
    rewrite <- Hsrow in Hs. specialize (Hnone j e _ He Hs El). congruence.
  + simpl. eauto.
Qed.

Lemma matched_iff_some_eligible_candidate_scores_witness :
  reconcile count_cosine store_A = (inr frame_A, mkStore frame_A ledger_A) /\
  exists v,
    fit (corpus store_A) = inr v /\
    exists j e,
      nth_error (app_df store_A) j = Some e /\ is_eligible bank_A e = true /\
      gt (count_cosine v
            (count_row (vocabulary_ v) (lower (narration bank_A)))
            (count_row (vocabulary_ v) (app_narration e))) zero = true.
Proof.
assert (H : reconcile count_cosine store_A =
            (inr frame_A, mkStore frame_A ledger_A)).
{ vm_compute. reflexivity. }
split; [exact H|].
destruct (matched_iff_some_eligible_candidate_scores count_cosine store_A _
            frame_A _ 0%nat bank_A H eq_refl eq_refl) as (v & Hfit & Hiff).
exists v. split; [exact Hfit|]. apply Hiff. exists 0. reflexivity.
Defined.

(** X12: in every line of the result the five columns agree: the index is
    absent exactly when the score is 0, and exactly when the narration is
    absent; without an index the amount and the date are absent too; with an
    index the score is above 0 and the amount and the date are present. *)
Theorem result_columns_agree :
  forall (tfidf_cosine : Vectorizer -> list nat -> list nat -> float)
         (st st' : Store) (frame : MtFrame) (cols : Columns)
         (i : nat) (r : MatchResult),
  reconcile tfidf_cosine st = (inr frame, st') ->
  mt_columns frame = Some cols ->
  result_at cols i = Some r ->
  (r_matched_index r = None <-> r_similarity_score r = zero) /\
  (r_matched_index r = None <-> r_matched_narration r = None) /\
  (r_matched_index r = None ->
   r_matched_amount r = None /\ r_matched_date r = None) /\
  (r_matched_index r <> None ->
   gt (r_similarity_score r) zero = true /\
   isnull_amount (r_matched_amount r) = false /\
   isnull_date (r_matched_date r) = false).
Proof.
intros tfidf_cosine st st' frame cols i r Hrec Hcols Hat.
destruct (reconcile_lines _ _ _ _ Hrec)
  as (v & cols' & _ & -> & _ & (L1 & _) & Hlines).
simpl in Hcols. injection Hcols as ->.
destruct (result_at_inv _ _ _ Hat) as (Hidx & _).
destruct (nth_error (mt_rows (mt_df st)) i) as [row|] eqn:Hrow.
2:{ apply nth_error_None in Hrow.
    assert (i < List.length (matched_index cols))%nat
      by (apply nth_error_Some; congruence). lia. }
destruct (Hlines i row Hrow) as (r' & srow & Hat' & _ & _ & _ & Hsel).
assert (r' = r) by congruence. subst r'.
destruct Hsel as [[-> _] | (j & e & s & -> & He & Hs & El & Hpos & _)]; simpl.
- split; [split; reflexivity|]. split; [split; reflexivity|].
  split; [split; reflexivity|]. intros H. congruence.
- pose proof (is_eligible_not_null _ _ El) as (_ & N2 & _ & N4).
  split; [split; [discriminate|]|].
  { intros ->. rewrite gt_irrefl in Hpos. discriminate. }
  split; [split; discriminate|]. split; [discriminate|].
  intros _. auto.
Qed.

Lemma result_columns_agree_witness :
  reconcile count_cosine store_A = (inr frame_A, mkStore frame_A ledger_A) /\
  gt (S754_finite false 6004799503160662 (-53)) zero = true.
Proof.
assert (H : reconcile count_cosine store_A =
            (inr frame_A, mkStore frame_A ledger_A)).
{ vm_compute. reflexivity. }
split; [exact H|].
destruct (result_columns_agree count_cosine store_A _ frame_A _ 0%nat
            (mkMatchResult (Some 0) (S754_finite false 6004799503160662 (-53))
               (Some (of_decimal 10005 100)) (Some (ordinal 2024 5 2))
               (Some "invoice 4521 settlement"%string))
            H eq_refl eq_refl) as (_ & _ & _ & Hm).
apply Hm. discriminate.
Defined.

(** ** Bank rows do not compete (lines 67-96) *)

Lemma selects_functional (row : MtRow) (app : list AppRow) (srow : list float)
    (r r' : MatchResult) :
  selects row app srow r -> selects row app srow r' -> r = r'.
Proof.
intros [[-> Hnone] | (j & e & s & -> & He & Hs & El & Hpos & Hb & Ha)]
       [[-> Hnone'] | (j' & e' & s' & -> & He' & Hs' & El' & Hpos' & Hb' & Ha')].
- reflexivity.
- specialize (Hnone j' e' s' He' Hs' El'). congruence.
- specialize (Hnone' j e s He Hs El). congruence.
- assert (j = j').
  { destruct (Nat.lt_trichotomy j j') as [Hlt | [Heq | Hgt]]; [|exact Heq|];
      exfalso.
    - pose proof (Hb' j e s Hlt He Hs El) as H1.
      pose proof (Ha j' e' s' Hlt He' Hs' El') as H2.
      rewrite (not_le_gt s s' (gt_not_nan _ _ Hpos) (gt_not_nan _ _ Hpos') H1)
        in H2. discriminate.
    - pose proof (Hb j' e' s' Hgt He' Hs' El') as H1.
      pose proof (Ha' j e s Hgt He Hs El) as H2.
      rewrite (not_le_gt s' s (gt_not_nan _ _ Hpos') (gt_not_nan _ _ Hpos) H1)
        in H2. discriminate. }
  subst j'. congruence.
Qed.

(** X13: bank rows do not compete for ledger rows: the line of a bank row
    depends on its own date, amount and narration only, so two bank rows that
    agree on these (up to letter case in the narration) get the same line,
    the same ledger index included. *)
Theorem equal_bank_rows_get_the_same_line :
  forall (tfidf_cosine : Vectorizer -> list nat -> list nat -> float)
         (st st' : Store) (frame : MtFrame) (cols : Columns)
         (i1 i2 : nat) (row1 row2 : MtRow),
  reconcile tfidf_cosine st = (inr frame, st') ->
  mt_columns frame = Some cols ->
  nth_error (mt_rows (mt_df st)) i1 = Some row1 ->
  nth_error (mt_rows (mt_df st)) i2 = Some row2 ->
  date row1 = date row2 -> amount row1 = amount row2 ->
  lower (narration row1) = lower (narration row2) ->
  result_at cols i1 = result_at cols i2 /\ result_at cols i1 <> None.
Proof.
intros tfidf_cosine st st' frame cols i1 i2 row1 row2 Hrec Hcols H1 H2
  Hd Ha Hn.
destruct (reconcile_lines _ _ _ _ Hrec)
  as (v & cols' & _ & -> & _ & _ & Hlines).
simpl in Hcols. injection Hcols as ->.
destruct (Hlines i1 row1 H1) as (r1 & srow1 & Hat1 & _ & Hs1 & _ & Hsel1).
destruct (Hlines i2 row2 H2) as (r2 & srow2 & Hat2 & _ & Hs2 & _ & Hsel2).
rewrite Hat1, Hat2. split; [|discriminate]. f_equal.
rewrite <- Hn in Hs2. rewrite <- Hs1 in Hs2. subst srow2.
apply (selects_functional row1 (app_df st) srow1); [exact Hsel1|].
assert (Hel : forall e, is_eligible row2 e = is_eligible row1 e).
{ intros e. unfold is_eligible. rewrite Hd, Ha. reflexivity. }
destruct Hsel2 as [[-> Hnone] | (j & e & s & -> & He & Hs & El & Hpos & Hb & Hafter)].
- left. split; [reflexivity|]. intros k e s Hk Hsk El.
  rewrite <- Hel in El. eauto.
- right. exists j, e, s.
  split; [reflexivity|]. split; [exact He|]. split; [exact Hs|].
  split; [rewrite <- Hel; exact El|]. split; [exact Hpos|]. split.
  + intros k e' s' Hk He' Hs' El'. rewrite <- Hel in El'. eauto.
  + intros k e' s' Hk He' Hs' El'. rewrite <- Hel in El'. eauto.
Qed.

Lemma equal_bank_rows_get_the_same_line_witness :
  exists frame st' cols,
    reconcile count_cosine store_twins = (inr frame, st') /\
    mt_columns frame = Some cols /\
    matched_index cols = [Some 0; Some 0] /\
    result_at cols 0 = result_at cols 1.
Proof.
destruct (reconcile count_cosine store_twins) as [[e|frame] st'] eqn:H;
  [vm_compute in H; discriminate|].
destruct (mt_columns frame) as [cols|] eqn:Hc;
  [|vm_compute in H; injection H as <- _; discriminate].
exists frame, st', cols. split; [reflexivity|]. split; [exact Hc|].
split.
- vm_compute in H. injection H as <- _. injection Hc as <-. reflexivity.
- apply (equal_bank_rows_get_the_same_line count_cosine store_twins st' frame
           cols 0 1 _ _ H Hc eq_refl eq_refl eq_refl eq_refl eq_refl).
Defined.

(** ** Running [reconcile] again *)

Lemma lowered_after_lower (st : Store) : lowered (after_lower st) = lowered st.
Proof.
unfold lowered, after_lower. simpl. unfold lowered. rewrite map_map.
apply map_ext. intros r. apply lower_row_idempotent.
Qed.

Lemma lowered_after_return (st : Store) (cols : Columns) :
  lowered (after_return st cols) = lowered st.
Proof.
unfold lowered, after_return. simpl. unfold lowered. rewrite map_map.
apply map_ext. intros r. apply lower_row_idempotent.
Qed.

(** X14: [reconcile] is idempotent: run again on the store a first run has
    left, it gives the same outcome and leaves that store as it is, whether
    the first run returned or raised. *)
Theorem reconcile_is_idempotent :
  forall (tfidf_cosine : Vectorizer -> list nat -> list nat -> float)
         (st : Store),
  reconcile tfidf_cosine (snd (reconcile tfidf_cosine st)) =
  reconcile tfidf_cosine st.
Proof.
intros tfidf_cosine st.
destruct (reconcile_store tfidf_cosine st) as [[e H] | [cols H]]; rewrite H;
  simpl snd.
- pose proof (reconcile_fst_ext tfidf_cosine (after_lower st) st
                (lowered_after_lower st) eq_refl) as Hf.
  rewrite H in Hf. simpl in Hf.
  destruct (reconcile_store tfidf_cosine (after_lower st))
    as [[e' H'] | [cols' H']]; rewrite H' in *; simpl in Hf; [|discriminate].
  injection Hf as ->. f_equal.
  unfold after_lower at 1. rewrite lowered_after_lower. reflexivity.
- pose proof (reconcile_fst_ext tfidf_cosine (after_return st cols) st
                (lowered_after_return st cols) eq_refl) as Hf.
  rewrite H in Hf. simpl in Hf.
  destruct (reconcile_store tfidf_cosine (after_return st cols))
    as [[e' H'] | [cols' H']]; rewrite H' in *; simpl in Hf; [discriminate|].
  injection Hf as _ ->.
  rewrite lowered_after_return. f_equal.
  unfold after_return at 1. rewrite lowered_after_return. reflexivity.
Qed.

(** ** The reference of a message (lines 17 and 34) *)

Lemma strip_prefix_app (p t : string) : strip_prefix p (p ++ t) = Some t.
Proof.
induction p as [|c p IH]; simpl; [destruct t; reflexivity|].
rewrite Ascii.eqb_refl. exact IH.
Qed.

Lemma search_tag_at_start (tag t : string) :
  search_tag tag (tag ++ t) = Some (first_line t).
Proof.
destruct (tag ++ t)%string as [|c r] eqn:E; cbn [search_tag];
  rewrite <- E, strip_prefix_app; reflexivity.
Qed.

(** X15: every row after row 0 belongs to a piece that begins with [:20:],
    and its reference is the rest of that first line, stripped: a later
    [:20:] inside the same piece, or a missing reference, never shifts the
    references of the following messages. *)
Theorem later_rows_carry_their_own_reference :
  forall (content : string) (frame : MtFrame) (i : nat) (row : MtRow),
  parse_mt910_messages content = inr frame ->
  nth_error (mt_rows frame) (S i) = Some row ->
  exists t,
    nth_error (split_messages content) (S i) = Some (":20:" ++ t)%string /\
    parse_message (":20:" ++ t) = inr row /\
    reference row = strip (first_line t).
Proof.
intros content frame i row Hparse Hrow.
destruct (parsed_rows_follow_pieces content frame Hparse) as [Hlen Hk].
destruct (nth_error (split_messages content) (S i)) as [msg|] eqn:Hmsg.
2:{ apply nth_error_None in Hmsg.
    assert (S i < List.length (mt_rows frame))%nat
      by (apply nth_error_Some; congruence). lia. }
destruct (Hk _ _ Hmsg) as (row' & Hrow' & Hpm).
assert (row' = row) by congruence. subst row'.
assert (Hstart : prefix ":20:" msg = true).
{ pose proof (split_from_tail_starts content true "") as Htl.
  fold (split_messages content) in Htl.
  destruct (split_messages content) as [|first rest]; [discriminate|].
  simpl in Hmsg, Htl. rewrite Forall_forall in Htl.
  apply Htl. eapply nth_error_In; eauto. }
apply prefix_tag_iff in Hstart as [t ->].
exists t. split; [reflexivity|]. split; [exact Hpm|].
unfold parse_message in Hpm. rewrite search_tag_at_start in Hpm.
destruct (search_details (":20:" ++ t)) as [[[d c] a]|].
- destruct (float_of_amount (replace_comma a)); [|discriminate].
  injection Hpm as <-. reflexivity.
- injection Hpm as <-. reflexivity.
Qed.

Lemma later_rows_carry_their_own_reference_witness :
  parse_mt910_messages sample_file = inr sample_frame /\
  exists t,
    nth_error (split_messages sample_file) 2 = Some (":20:" ++ t)%string /\
    reference (mkMtRow "REF2" "" None (Some "USD"%string)
                 (Some (of_decimal 55 10)) "") = strip (first_line t).
Proof.
assert (H : parse_mt910_messages sample_file = inr sample_frame).
{ vm_compute. reflexivity. }
split; [exact H|].
destruct (later_rows_carry_their_own_reference sample_file sample_frame 1 _ H
            eq_refl) as (t & Ht & _ & Hr).
exists t. split; [exact Ht | exact Hr].
Defined.

(** * The amount boundary in decimal terms *)

(** Two amounts 0.10 apart in decimal terms need not be within tolerance:
    50.10 (as the parser reads it) against 50.00 gives the binary64
    difference 0.10000000000000142, above the binary64 value of 0.1, so the
    pair is skipped and the bank row stays unmatched although date and
    narration agree.  Of the amounts from 0.00 to 9.99, 441 reject the
    amount 0.10 above them. *)
Lemma decimal_tenth_difference_can_be_rejected :
  parse_message ":32A:240101EUR50,10" =
    inr (mkMtRow "" "" (Some (ordinal 2024 1 1)) (Some "EUR"%string)
           (Some (of_decimal 5010 100)) "") /\
  Z.abs (5010 - 5000) <= 10 /\
  sub (of_decimal 5010 100) (of_decimal 5000 100) =
    S754_finite false 7205759403792896 (-56) /\
  amount_match (of_decimal 5010 100) (of_decimal 5000 100) = false /\
  fst (reconcile count_cosine store_ten_cents) =
    inr (mkMtFrame (mt_rows (mt_df store_ten_cents))
           (Some (mkColumns [None] [zero] [None] [None] [None]))) /\
  List.length
    (filter (fun x => negb (amount_match (of_decimal (x + 10) 100)
                              (of_decimal x 100)))
       (map Z.of_nat (seq 0 1000))) = 441%nat /\
  ~ (forall x y : Z, 0 <= x -> 0 <= y -> Z.abs (x - y) <= 10 ->
       amount_match (of_decimal x 100) (of_decimal y 100) = true).
Proof.
split; [vm_compute; reflexivity|]. split; [vm_compute; discriminate|].
split; [vm_compute; reflexivity|]. split; [vm_compute; reflexivity|].
split; [vm_compute; reflexivity|]. split; [vm_compute; reflexivity|].
intros H. specialize (H 5010 5000 ltac:(lia) ltac:(lia) ltac:(lia)).
vm_compute in H. discriminate H.
Qed.

(** * The scorer in exact and in binary64 arithmetic *)

Section KernelFacts.

Local Open Scope R_scope.

Lemma kernel_dot_exact (u w : list R) :
  Kernel.dot R 0 Rplus Rmult u w = Scorer.dot u w.
Proof.
unfold Kernel.dot.
assert (H : forall u w acc,
          fold_left (fun a (p : R * R) => a + fst p * snd p) (combine u w) acc
          = acc + Scorer.dot u w).
{ clear. induction u as [|x u IH]; intros [|y w] acc; simpl; try lra.
  rewrite IH. simpl. lra. }
rewrite H. lra.
Qed.

Lemma kernel_idf_exact (n df : nat) :
  Kernel.idf R 1 Rplus Rdiv ln INR n df = Scorer.idf n df.
Proof.
unfold Kernel.idf, Scorer.idf.
change (1 + n)%nat with (S n). change (1 + df)%nat with (S df).
rewrite !S_INR.
replace (INR n + 1) with (1 + INR n) by lra.
replace (INR df + 1) with (1 + INR df) by lra. reflexivity.
Qed.

Lemma kernel_weights_exact (v : Vectorizer) (row : list nat) :
  Kernel.weights R 1 Rplus Rmult Rdiv ln INR v row = Scorer.weights v row.
Proof.
unfold Kernel.weights, Scorer.weights. apply map_ext.
intros p. rewrite kernel_idf_exact. reflexivity.
Qed.

Lemma kernel_normalize_exact (u : list R) :
  Kernel.normalize R 0 Rplus Rmult Rdiv sqrt
    (fun x => if Req_dec_T x 0 then true else false) u
  = Scorer.normalize u.
Proof.
unfold Kernel.normalize, Kernel.norm, Scorer.normalize, Scorer.handle_zero,
  Scorer.norm.
rewrite kernel_dot_exact.
destruct (Req_dec_T (sqrt (Scorer.dot u u)) 0) as [E|N]; [|reflexivity].
rewrite <- (map_id u) at 1. apply map_ext. intros x. unfold Rdiv.
rewrite Rinv_1. lra.
Qed.

Lemma exact_cosine_is_the_scorer (v : Vectorizer) (x y : list nat) :
  exact_cosine v x y =
  Scorer.cosine (Scorer.tfidf v x) (Scorer.tfidf v y).
Proof.
unfold exact_cosine, Kernel.cosine, Kernel.tfidf, Scorer.cosine, Scorer.tfidf.
rewrite kernel_dot_exact, !kernel_weights_exact, !kernel_normalize_exact.
reflexivity.
Qed.

End KernelFacts.

Lemma exact_cosine_range (v : Vectorizer) (x y : list nat) :
  Forall (fun df => (df <= n_docs v)%nat) (doc_freq v) ->
  (0 <= exact_cosine v x y <= 1)%R.
Proof.
intros Hdf. rewrite exact_cosine_is_the_scorer.
apply cosine_range; unfold Scorer.tfidf;
  apply normalize_nonneg, weights_nonneg; exact Hdf.
Qed.

(** With every term in every document, each weight is [1 * (flog 1.0 + 1.0)],
    and the only value the logarithm is asked for is 1.0. *)
Lemma three_shared_terms_cell (flog : float -> float) :
  flog (of_Z 1) = zero ->
  tfidf_cosine64 flog (mkVectorizer ["invoice"%string; "4521"%string; "payment"%string] 2
       [2; 2; 2]%nat)
    [1; 1; 1]%nat [1; 1; 1]%nat = one_plus_ulp.
Proof.
intros Hlog.
unfold tfidf_cosine64, Kernel.cosine, Kernel.tfidf, Kernel.weights, Kernel.idf.
cbn [n_docs doc_freq combine map fst snd Nat.add].
replace (SFdiv prec emax (of_Z (Z.of_nat 3)) (of_Z (Z.of_nat 3)))
  with (of_Z 1) by (vm_compute; reflexivity).
rewrite Hlog. vm_compute. reflexivity.
Qed.

(** ** Signs through the binary64 scorer *)

Lemma round_not_below_zero (mx ex : Z) (lx : location) :
  not_below_zero (binary_round_aux prec emax false mx ex lx) = true.
Proof.
unfold binary_round_aux.
destruct (shr_fexp prec emax mx ex lx) as [mrs' e'].
destruct (shr_fexp prec emax _ e' loc_Exact) as [mrs'' e''].
destruct (shr_m mrs'') as [|p|p]; [reflexivity| |reflexivity].
destruct (e'' <=? emax - prec); reflexivity.
Qed.

Lemma normalize_not_below_zero (m e : Z) :
  0 <= m -> not_below_zero (binary_normalize prec emax m e false) = true.
Proof.
intros Hm. unfold binary_normalize. destruct m as [|p|p]; [reflexivity| |lia].
unfold binary_round. destruct (shl_align p e _) as [mz ez].
apply round_not_below_zero.
Qed.

Lemma of_nat_not_below_zero (n : nat) :
  not_below_zero (of_Z (Z.of_nat n)) = true.
Proof. apply normalize_not_below_zero. lia. Qed.

Lemma add_not_below_zero (x y : float) :
  not_below_zero x = true -> not_below_zero y = true ->
  not_below_zero (SFadd prec emax x y) = true.
Proof.
destruct x as [[|]|[|]| |[|] mx ex]; try discriminate;
  destruct y as [[|]|[|]| |[|] my ey]; try discriminate;
  intros _ _; try reflexivity.
unfold SFadd. apply normalize_not_below_zero. simpl. lia.
Qed.

Lemma mul_not_below_zero (x y : float) :
  not_below_zero x = true -> not_below_zero y = true ->
  not_below_zero (SFmul prec emax x y) = true.
Proof.
destruct x as [[|]|[|]| |[|] mx ex]; try discriminate;
  destruct y as [[|]|[|]| |[|] my ey]; try discriminate;
  intros _ _; try reflexivity.
unfold SFmul. apply round_not_below_zero.
Qed.

Lemma div_not_below_zero (x y : float) :
  not_below_zero x = true -> not_below_zero y = true ->
  not_below_zero (SFdiv prec emax x y) = true.
Proof.
destruct x as [[|]|[|]| |[|] mx ex]; try discriminate;
  destruct y as [[|]|[|]| |[|] my ey]; try discriminate;
  intros _ _; try reflexivity.
unfold SFdiv.
destruct (SFdiv_core_binary prec emax (Zpos mx) ex (Zpos my) ey) as [[mz ez] lz].
apply round_not_below_zero.
Qed.

Lemma sqrt_not_below_zero (x : float) :
  not_below_zero x = true -> not_below_zero (SFsqrt prec emax x) = true.
Proof.
destruct x as [[|]|[|]| |[|] mx ex]; try discriminate; intros _;
  try reflexivity.
unfold SFsqrt.
destruct (SFsqrt_core_binary prec emax (Zpos mx) ex) as [[mz ez] lz].
apply round_not_below_zero.
Qed.

Section KernelSigns.

Variable flog : float -> float.

Let fadd := SFadd prec emax.
Let fmul := SFmul prec emax.
Let fdiv := SFdiv prec emax.
Let fsqrt := SFsqrt prec emax.
Let of_nat := fun n : nat => of_Z (Z.of_nat n).
Let is_zero := fun x : float => SFeqb x zero.

Lemma dot_not_below_zero (u w : list float) :
  Forall (fun x => not_below_zero x = true) u ->
  Forall (fun x => not_below_zero x = true) w ->
  not_below_zero (Kernel.dot float zero fadd fmul u w) = true.
Proof.
unfold Kernel.dot. intros Hu Hw.
assert (H : forall acc, not_below_zero acc = true ->
          not_below_zero
            (fold_left (fun a (p : float * float) => fadd a (fmul (fst p) (snd p)))
               (combine u w) acc) = true).
{ revert w Hw. induction Hu as [|x u Hx _ IH]; intros w Hw acc Hacc;
    [exact Hacc|].
  destruct Hw as [|y w Hy Hw]; [exact Hacc|]. simpl.
  apply IH; [exact Hw|].
  apply add_not_below_zero; [exact Hacc|].
  apply mul_not_below_zero; assumption. }
apply H. reflexivity.
Qed.

Lemma normalize_rows_not_below_zero (u : list float) :
  Forall (fun x => not_below_zero x = true) u ->
  Forall (fun x => not_below_zero x = true)
    (Kernel.normalize float zero fadd fmul fdiv fsqrt is_zero u).
Proof.
intros Hu. unfold Kernel.normalize.
destruct (is_zero _); [exact Hu|].
apply Forall_map. eapply Forall_impl; [|exact Hu]. intros x Hx. simpl.
apply div_not_below_zero; [exact Hx|].
apply sqrt_not_below_zero, dot_not_below_zero; exact Hu.
Qed.

(** What is asked of the platform's logarithm: on the quotient of a count
    by a count not above it, the result is not below zero. *)
Hypothesis flog_of_ratio :
  forall n df : nat, (df <= n)%nat ->
  not_below_zero (flog (fdiv (of_nat (1 + n)) (of_nat (1 + df)))) = true.

Lemma weights_not_below_zero (v : Vectorizer) (row : list nat) :
  Forall (fun df => (df <= n_docs v)%nat) (doc_freq v) ->
  Forall (fun x => not_below_zero x = true)
    (Kernel.weights float (of_Z 1) fadd fmul fdiv flog of_nat v row).
Proof.
intros Hdf. unfold Kernel.weights. apply Forall_map.
rewrite Forall_forall in *. intros [c df] Hin. simpl.
apply in_combine_r, Hdf in Hin.
apply mul_not_below_zero; [apply of_nat_not_below_zero|].
unfold Kernel.idf. apply add_not_below_zero; [|reflexivity].
apply flog_of_ratio. exact Hin.
Qed.

Lemma tfidf_cosine64_not_below_zero (v : Vectorizer) (x y : list nat) :
  Forall (fun df => (df <= n_docs v)%nat) (doc_freq v) ->
  not_below_zero (tfidf_cosine64 flog v x y) = true.
Proof.
intros Hdf. unfold tfidf_cosine64, Kernel.cosine, Kernel.tfidf.
apply dot_not_below_zero;
  apply normalize_rows_not_below_zero, normalize_rows_not_below_zero,
    weights_not_below_zero; exact Hdf.
Qed.

End KernelSigns.

Lemma not_below_zero_order (x : float) :
  not_below_zero x = true ->
  gt zero x = false /\ (isnan x = false -> le zero x = true).
Proof.
destruct x as [[|]|[|]| |[|] m e]; try discriminate; intros _;
  split; try reflexivity; intros H; try reflexivity; discriminate H.
Qed.


Lemma matrix_get_scores
    (tfidf_cosine : Vectorizer -> list nat -> list nat -> float)
    (v : Vectorizer) (mt_narr app_narr : list string) (i j : nat) (s : float) :
  matrix_get (scores tfidf_cosine v mt_narr app_narr) i j = inr s ->
  exists x y,
    nth_error (map (count_row (vocabulary_ v)) mt_narr) i = Some x /\
    nth_error (map (count_row (vocabulary_ v)) app_narr) j = Some y /\
    s = tfidf_cosine v x y.
Proof.
unfold matrix_get, scores. rewrite nth_error_map.
destruct (nth_error (map _ mt_narr) i) as [x|]; [|discriminate]. simpl.
rewrite nth_error_map.
destruct (nth_error (map _ app_narr) j) as [y|]; [|discriminate]. simpl.
intros [= <-]. exists x, y. auto.
Qed.


